(** * movie-predictor: the scraper (scraper.py), embedded and verified

    The program is a Python 2 script: it crawls the alphabetical index
    pages of a catalogue site, collects the links to the detail pages, and
    turns every detail page into a dictionary of typed fields through a
    label-driven lookup ([get_movie_value]) and a family of [try]/[except]
    guarded converters.

    Python values are dynamically typed, so the embedding has one type of
    values ([pyval]); an exception is an explicit outcome ([Raises]); the
    network and the third-party libraries are an environment ([Env]); the
    history of HTTP requests and the standard output are explicit state
    ([world]).  The [while True] loop of the crawler is run with fuel. *)

From Stdlib Require Import ZArith Lia.
From Stdlib Require Import Ascii String DecimalString DecimalNat.
From Stdlib Require Import Floats.SpecFloat.
From stdpp Require Import base option list strings gmap.

Set Warnings "-register-all".

Local Open Scope string_scope.
Local Open Scope list_scope.
Local Open Scope Z_scope.

(* ===================================================================== *)
(** * Exceptions and outcomes *)
(* ===================================================================== *)

(** The exception classes the program can meet.  [LibraryError] stands for
    whatever an external library raises (a connection error of requests, a
    parser error of dateutil, ...). *)
Inductive exn : Type :=
| AttributeError
| TypeError
| ValueError
| KeyError
| IndexError
| OverflowError
| UnicodeEncodeError
| LibraryError (what : string).

(** A Python expression either returns a value or raises. *)
Inductive outcome (A : Type) : Type :=
| Returns (a : A)
| Raises (e : exn).
Arguments Returns {A} a.
Arguments Raises {A} e.

#[global] Instance outcome_ret : MRet outcome := @Returns.
#[global] Instance outcome_bind : MBind outcome := fun A B f m =>
  match m with
  | Returns a => f a
  | Raises e => Raises e
  end.
#[global] Instance outcome_fmap : FMap outcome := fun A B f m =>
  match m with
  | Returns a => Returns (f a)
  | Raises e => Raises e
  end.

(** [try: body except: handler] with a bare [except], which catches every
    exception. *)
Definition try_except {A : Type} (body : outcome A) (handler : outcome A)
  : outcome A :=
  match body with
  | Returns a => Returns a
  | Raises _ => handler
  end.

(** The expression returned, it did not raise. *)
Definition returned {A : Type} (r : outcome A) : bool :=
  match r with
  | Returns _ => true
  | Raises _ => false
  end.

(** [l[i]] on a Python list, for a non-negative literal index. *)
Definition py_index {A : Type} (l : list A) (i : nat) : outcome A :=
  match l !! i with
  | Some x => Returns x
  | None => Raises IndexError
  end.

(** A sequence of fallible steps, left to right, stopping at the first
    exception (a list comprehension whose element expression can raise). *)
Fixpoint map_outcome {A B : Type} (f : A → outcome B) (l : list A)
  : outcome (list B) :=
  match l with
  | [] => Returns []
  | x :: l' => y ← f x; ys ← map_outcome f l'; Returns (y :: ys)
  end.

(* ===================================================================== *)
(** * Python strings

    A Python string (unicode or byte string) is a [string]: a sequence of
    characters with code points below 256.  The methods below are the ones
    the scraper calls, with the argument shapes it uses. *)
(* ===================================================================== *)

Definition chr (n : nat) : ascii := ascii_of_nat n.
Definition ord (c : ascii) : nat := nat_of_ascii c.

(** [str.isspace] for a byte string: space and the five control characters
    tab, line feed, vertical tab, form feed and carriage return. *)
Definition isspace_bytes (c : ascii) : bool :=
  let n := ord c in
  ((9 <=? n) && (n <=? 13) || (n =? 32))%nat.

(** [unicode.isspace]: the above and, below 256, the separators FS, GS, RS,
    US, NEL and the no-break space. *)
Definition isspace_unicode (c : ascii) : bool :=
  let n := ord c in
  (isspace_bytes c || (28 <=? n) && (n <=? 31) || (n =? 133) || (n =? 160))%nat.

Definition is_digit (c : ascii) : bool :=
  let n := ord c in ((48 <=? n) && (n <=? 57))%nat.

Definition lower_char (c : ascii) : ascii :=
  let n := ord c in
  if ((65 <=? n) && (n <=? 90))%nat then chr (n + 32) else c.

Fixpoint str_map (f : ascii → ascii) (s : string) : string :=
  match s with
  | EmptyString => EmptyString
  | String c s' => String (f c) (str_map f s')
  end.

Fixpoint str_forallb (p : ascii → bool) (s : string) : bool :=
  match s with
  | EmptyString => true
  | String c s' => p c && str_forallb p s'
  end.

Fixpoint str_existsb (p : ascii → bool) (s : string) : bool :=
  match s with
  | EmptyString => false
  | String c s' => p c || str_existsb p s'
  end.

(** [s.lower()] *)
Definition lower (s : string) : string := str_map lower_char s.

(** [s.isdigit()] for a byte string: non-empty and digits only. *)
Definition isdigit (s : string) : bool :=
  match s with
  | EmptyString => false
  | _ => str_forallb is_digit s
  end.

(** [c in s] for a one-character [c]. *)
Definition has_char (c : ascii) (s : string) : bool :=
  str_existsb (Ascii.eqb c) s.

(** [needle in s] *)
Fixpoint contains (needle s : string) : bool :=
  String.prefix needle s ||
  match s with
  | EmptyString => false
  | String _ s' => contains needle s'
  end.

(** [s.replace(c, new)] for a one-character [c]. *)
Fixpoint replace (c : ascii) (new : string) (s : string) : string :=
  match s with
  | EmptyString => EmptyString
  | String a s' =>
      if Ascii.eqb a c then new +:+ replace c new s'
      else String a (replace c new s')
  end.

(** [s.split(c)] for a one-character separator: never empty, and empty
    pieces are kept. *)
Fixpoint split (c : ascii) (s : string) : list string :=
  match s with
  | EmptyString => [EmptyString]
  | String a s' =>
      if Ascii.eqb a c then EmptyString :: split c s'
      else match split c s' with
           | [] => [String a EmptyString]
           | piece :: pieces => String a piece :: pieces
           end
  end.

(** [s.lstrip()], [s.rstrip()], [s.strip()] with the set of characters to
    drop given as a predicate. *)
Fixpoint lstrip (drop : ascii → bool) (s : string) : string :=
  match s with
  | EmptyString => EmptyString
  | String c s' => if drop c then lstrip drop s' else s
  end.

Fixpoint rstrip (drop : ascii → bool) (s : string) : string :=
  match s with
  | EmptyString => EmptyString
  | String c s' =>
      match rstrip drop s' with
      | EmptyString => if drop c then EmptyString else String c EmptyString
      | rest => String c rest
      end
  end.

Definition strip (drop : ascii → bool) (s : string) : string :=
  rstrip drop (lstrip drop s).

(** [s.split()] without an argument: the maximal runs of non-space
    characters.  [word] is the run being read, in reverse. *)
Fixpoint split_ws_go (space : ascii → bool) (word : list ascii) (s : string)
  : list string :=
  let flush (rest : list string) :=
    match word with
    | [] => rest
    | _ => string_of_list_ascii (rev word) :: rest
    end in
  match s with
  | EmptyString => flush []
  | String c s' =>
      if space c then flush (split_ws_go space [] s')
      else split_ws_go space (c :: word) s'
  end.

Definition split_ws (space : ascii → bool) (s : string) : list string :=
  split_ws_go space [] s.

(** [str(u)] of a unicode string in Python 2 encodes with the ASCII codec
    and raises on a character above 127. *)
Definition str_of_unicode (u : string) : outcome string :=
  if str_forallb (λ c, (ord c <? 128)%nat) u then Returns u
  else Raises UnicodeEncodeError.

(** [str(n)] of a non-negative integer. *)
Definition str_of_nat (n : nat) : string :=
  NilZero.string_of_uint (Nat.to_uint n).

(* ===================================================================== *)
(** * Numbers: [int()] and [float()] of a string *)
(* ===================================================================== *)

Definition digit_value (c : ascii) : Z := Z.of_nat (ord c) - 48.

(** The value of a string of decimal digits, most significant first. *)
Fixpoint digits_value (acc : Z) (s : string) : Z :=
  match s with
  | EmptyString => acc
  | String c s' => digits_value (10 * acc + digit_value c) s'
  end.

(** An optional sign in front of [s]: the sign ([true] for minus) and the
    rest. *)
Definition read_sign (s : string) : bool * string :=
  match s with
  | String "-" s' => (true, s')
  | String "+" s' => (false, s')
  | _ => (false, s)
  end.

(** [int(s)]: surrounding white space is ignored, then an optional sign
    and at least one decimal digit; everything else is a [ValueError].
    (The suffix [L], which Python 2 lets through after a literal too large
    for a machine word, is left out.) *)
Definition int_of_str (s : string) : outcome Z :=
  let (neg, body) := read_sign (strip isspace_unicode s) in
  if isdigit body
  then Returns (if neg then - digits_value 0 body else digits_value 0 body)
  else Raises ValueError.

(** Python floats are IEEE 754 binary64 numbers: the specification floats
    of the standard library at precision 53 and maximal exponent 1024,
    with rounding to nearest, ties to even. *)
Definition float_prec : Z := 53.
Definition float_emax : Z := 1024.

(** [float(k)] of an integer. *)
Definition float_of_Z (k : Z) : spec_float :=
  binary_normalize float_prec float_emax k 0 false.

(** [x * y] on floats. *)
Definition float_mul (x y : spec_float) : spec_float :=
  SFmul float_prec float_emax x y.

(** The float nearest to [m * 10^e], for a mantissa [m >= 0]: the
    correctly rounded conversion [float()] performs on a decimal
    literal.  A negative power of ten is a division of integers, rounded
    once from the quotient and the position of the remainder. *)
Definition float_of_decimal (neg : bool) (m e : Z) : spec_float :=
  match m with
  | Zpos p =>
      if 0 <=? e
      then binary_normalize float_prec float_emax
             (if neg then - (m * 10 ^ e) else m * 10 ^ e) 0 neg
      else
        let '(q, e', loc) :=
          SFdiv_core_binary float_prec float_emax m 0 (10 ^ (- e)) 0 in
        binary_round_aux float_prec float_emax neg q e' loc
  | _ => S754_zero neg
  end.

(** The longest prefix of decimal digits of [s], and what follows it. *)
Fixpoint span_digits (s : string) : string * string :=
  match s with
  | EmptyString => (EmptyString, EmptyString)
  | String c s' =>
      if is_digit c
      then let (ds, rest) := span_digits s' in (String c ds, rest)
      else (EmptyString, s)
  end.

(** The exponent part of a float literal: nothing, or [e] or [E] with an
    optional sign and at least one digit. *)
Definition read_exponent (s : string) : option Z :=
  match s with
  | EmptyString => Some 0
  | String c s' =>
      if Ascii.eqb (lower_char c) "e"
      then let (neg, ds) := read_sign s' in
           if isdigit ds
           then Some (if neg then - digits_value 0 ds else digits_value 0 ds)
           else None
      else None
  end.

(** [float(s)]: surrounding white space is ignored; an optional sign; then
    [inf], [infinity] or [nan] in any case, or digits with an optional
    fraction and an optional exponent, with at least one digit before the
    exponent.  Everything else is a [ValueError]. *)
Definition float_of_str (s : string) : outcome spec_float :=
  let (neg, body) := read_sign (strip isspace_unicode s) in
  let word := lower body in
  if String.eqb word "inf" || String.eqb word "infinity"
  then Returns (S754_infinity neg)
  else if String.eqb word "nan" then Returns S754_nan
  else
    let (int_part, after_int) := span_digits body in
    let (frac_part, after_frac) :=
      match after_int with
      | String "." r => span_digits r
      | _ => (EmptyString, after_int)
      end in
    match int_part +:+ frac_part, read_exponent after_frac with
    | EmptyString, _ => Raises ValueError
    | _, None => Raises ValueError
    | digits, Some e =>
        Returns (float_of_decimal neg (digits_value 0 digits)
                   (e - Z.of_nat (String.length frac_part)))
    end.

(** [int(x)] of a float: truncation towards zero; an infinity is an
    [OverflowError] and a NaN a [ValueError]. *)
Definition int_of_float (x : spec_float) : outcome Z :=
  match x with
  | S754_zero _ => Returns 0
  | S754_infinity _ => Raises OverflowError
  | S754_nan => Raises ValueError
  | S754_finite neg m e =>
      let magnitude :=
        if 0 <=? e then Zpos m * 2 ^ e else Zpos m / 2 ^ (- e) in
      Returns (if neg then - magnitude else magnitude)
  end.

(* ===================================================================== *)
(** * The parsed document (BeautifulSoup)

    A document is a tree of tags and strings.  An element of a document is
    a node together with its position, the path of child indices that
    leads to it: BeautifulSoup objects know their parent and their neighbours,
    and the position is what gives the embedded node the same knowledge.
    Comments and processing instructions are not modelled. *)
(* ===================================================================== *)

Inductive node : Type :=
| NavigableString (text : string)
| Tag (name : string) (attrs : gmap string string) (contents : list node).

(** A position: the child indices on the way from the node up to the
    root, the node's own index first. *)
Definition path : Type := list nat.
Definition element : Type := path * node.

(** [.descendants]: every node below [n] in document order (a tag comes
    before its contents), [here] being the position of [n]. *)
Fixpoint descendants_from (here : path) (n : node) : list element :=
  match n with
  | NavigableString _ => []
  | Tag _ _ contents =>
      (fix children (i : nat) (cs : list node) : list element :=
         match cs with
         | [] => []
         | c :: cs' =>
             (i :: here, c)
               :: descendants_from (i :: here) c ++ children (S i) cs'
         end) 0%nat contents
  end.

(** The same for the contents of a tag at [here], numbered from [i]. *)
Fixpoint contents_from (here : path) (i : nat) (cs : list node)
  : list element :=
  match cs with
  | [] => []
  | c :: cs' =>
      (i :: here, c)
        :: descendants_from (i :: here) c ++ contents_from here (S i) cs'
  end.

Definition descendants (soup : node) : list element :=
  descendants_from [] soup.

(** [.next_elements]: what follows the element at [p] in document
    order. *)
Fixpoint elements_after (p : path) (es : list element) : list element :=
  match es with
  | [] => []
  | e :: es' => if decide (e.1 = p) then es' else elements_after p es'
  end.

Definition next_elements (soup : node) (obj : element) : list element :=
  elements_after obj.1 (descendants soup).

(** The position of the parent; the root has none. *)
Definition parent_path (p : path) : option path :=
  match p with
  | [] => None
  | _ :: up => Some up
  end.

(** [.next_siblings]: the later elements with the same parent. *)
Definition next_siblings (soup : node) (obj : element) : list element :=
  filter (λ e : element, parent_path e.1 = parent_path obj.1)
         (next_elements soup obj).

Definition is_tag (e : element) : bool :=
  match e.2 with
  | Tag _ _ _ => true
  | NavigableString _ => false
  end.

Definition tag_named (name : string) (e : element) : bool :=
  match e.2 with
  | Tag n _ _ => String.eqb n name
  | NavigableString _ => false
  end.

Definition tag_with_attr (key value : string) (e : element) : bool :=
  match e.2 with
  | Tag _ attrs _ => bool_decide (attrs !! key = Some value)
  | NavigableString _ => false
  end.

(** A string node the search accepts.  The search loop of BeautifulSoup
    skips elements that are false as Python values, and an empty string is
    one. *)
Definition string_matching (accepts : string → bool) (e : element) : bool :=
  match e.2 with
  | NavigableString s => negb (String.eqb s "") && accepts s
  | Tag _ _ _ => false
  end.

(** [soup.find(text=pattern)]: the first string in document order that the
    pattern accepts. *)
Definition find_string (accepts : string → bool) (soup : node)
  : option element :=
  List.find (string_matching accepts) (descendants soup).

(** [e.find(name)] and [e.find(key=value)]: the first tag below [e]. *)
Definition find_tag (test : element → bool) (e : element) : option element :=
  List.find test (descendants_from e.1 e.2).

(** [e.find_all(name)]: every such tag below [e], in document order. *)
Definition find_all (test : element → bool) (e : element) : list element :=
  List.filter test (descendants_from e.1 e.2).

(** [obj.findNextSibling()] and [obj.findNext()] without arguments accept
    tags only: strings between tags are passed over. *)
Definition findNextSibling (soup : node) (obj : element) : option element :=
  List.find is_tag (next_siblings soup obj).

Definition findNext (soup : node) (obj : element) : option element :=
  List.find is_tag (next_elements soup obj).

(** [.strings]: the strings at and below a node, in document order. *)
Fixpoint strings (n : node) : list string :=
  match n with
  | NavigableString s => [s]
  | Tag _ _ contents =>
      (fix children (cs : list node) : list string :=
         match cs with
         | [] => []
         | c :: cs' => strings c ++ children cs'
         end) contents
  end.

(** [.get_text()], also [.text]: all the strings, joined. *)
Definition get_text (n : node) : string :=
  foldr String.append EmptyString (strings n).

(** [.stripped_strings]: the strings with white space stripped, those that
    become empty left out. *)
Definition stripped_strings (n : node) : list string :=
  List.filter (λ s, negb (String.eqb s ""))
              (map (strip isspace_unicode) (strings n)).

(** [tag[key]] *)
Definition tag_attr (e : element) (key : string) : outcome string :=
  match e.2 with
  | Tag _ attrs _ =>
      match attrs !! key with
      | Some v => Returns v
      | None => Raises KeyError
      end
  | NavigableString _ => Raises TypeError
  end.

(* ===================================================================== *)
(** * Values, the environment, the world *)
(* ===================================================================== *)

(** [datetime.datetime], as far as the fields go. *)
Record datetime : Type := mk_datetime {
  dt_year : Z; dt_month : Z; dt_day : Z;
  dt_hour : Z; dt_minute : Z; dt_second : Z
}.

(** The Python values the scraper handles. *)
Inductive pyval : Type :=
| PyNone
| PyStr (s : string)
| PyInt (z : Z)
| PyFloat (x : spec_float)
| PyDateTime (d : datetime)
| PyList (l : list string)
| PyElement (e : element).  (* a tag or a string node of a document *)

(** The libraries the scraper calls and the network, none of which is part
    of the repository.  Nothing is assumed of them.
    - [http_get history url] is [requests.get(url).text], or the exception
      the request ends in, when [history] lists the URLs requested so far:
      a site may answer the same request differently the second time.
    - [BeautifulSoup text] is [BeautifulSoup(text, 'lxml')], the parsed
      document, or the exception the parser ends in.
    - [re_search pattern text] says whether [re.compile(pattern)] matches
      somewhere in [text].
    - [dateutil_parse] is [dateutil.parser.parse].
    - [w2n_sentence] is what [w2n.word_to_num] computes from two or more
      number words, or from a sentence with the word [point].
    - [str_of_object] is [str(v)] for a value that is neither [None] nor
      a string: the markup of a tag, the digits of a number. *)
Record Env : Type := {
  http_get : list string → string → outcome string;
  BeautifulSoup : string → outcome node;
  re_search : string → string → bool;
  dateutil_parse : string → outcome datetime;
  w2n_sentence : list string → outcome pyval;
  str_of_object : pyval → outcome string
}.

(** The state the scraper changes: the URLs it has requested, oldest
    first, and the lines it has printed. *)
Record world : Type := mk_world {
  requested : list string;
  stdout : list string
}.

(** [print line]; writing to the standard output is taken to succeed. *)
Definition print (line : string) (w : world) : world :=
  {| requested := requested w; stdout := stdout w ++ [line] |}.

(** The truth value of a Python object in [if obj] / [if not obj]: [None]
    and the empty string are false, a tag is true, and a string node is a
    string. *)
Definition truthy (v : pyval) : bool :=
  match v with
  | PyNone => false
  | PyStr s => negb (String.eqb s "")
  | PyInt z => negb (z =? 0)
  | PyFloat x => negb (SFeqb x (S754_zero false))
  | PyDateTime _ => true
  | PyList l => negb (bool_decide (l = []))
  | PyElement (_, NavigableString s) => negb (String.eqb s "")
  | PyElement (_, Tag _ _ _) => true
  end.

(** [str(v)] for the values the record assembler applies it to. *)
Definition py_str (env : Env) (v : pyval) : outcome string :=
  match v with
  | PyNone => Returns "None"
  | PyStr s | PyElement (_, NavigableString s) => str_of_unicode s
  | other => str_of_object env other
  end.

(* ===================================================================== *)
(** * [get_movie_page] and [get_movie_value] *)
(* ===================================================================== *)

(** [get_movie_page(url)]: one HTTP request, then the parse.  The request
    is part of the history whether it succeeds or not. *)
Definition get_movie_page (env : Env) (url : string) (w : world)
  : outcome node * world :=
  (text ← http_get env (requested w) url; BeautifulSoup env text,
   {| requested := requested w ++ [url]; stdout := stdout w |}).

(** What the locator hands back for the tag it settled on: the tag itself
    for a list of people, its text otherwise. *)
Definition field_content (is_people : bool) (tag : element) : pyval :=
  if is_people then PyElement tag else PyStr (get_text tag.2).

(** [get_movie_value(soup, field_name, is_people)] *)
Definition get_movie_value (env : Env) (soup : node) (field_name : string)
    (is_people : bool) : pyval :=
  match find_string (re_search env field_name) soup with
  | None => PyNone
  | Some obj =>
      if negb (truthy (PyElement obj)) then PyNone
      else
        let next_sibling := findNextSibling soup obj in
        let next_obj := findNext soup obj in
        match next_sibling, next_obj with
        | Some sibling, _ => field_content is_people sibling
        | None, Some following => field_content is_people following
        | None, None => PyNone
        end
  end.

(* ===================================================================== *)
(** * [w2n.word_to_num] (word2number), as far as one word goes *)
(* ===================================================================== *)

Definition american_number_system : list (string * Z) :=
  [("zero", 0); ("one", 1); ("two", 2); ("three", 3); ("four", 4);
   ("five", 5); ("six", 6); ("seven", 7); ("eight", 8); ("nine", 9);
   ("ten", 10); ("eleven", 11); ("twelve", 12); ("thirteen", 13);
   ("fourteen", 14); ("fifteen", 15); ("sixteen", 16); ("seventeen", 17);
   ("eighteen", 18); ("nineteen", 19); ("twenty", 20); ("thirty", 30);
   ("forty", 40); ("fifty", 50); ("sixty", 60); ("seventy", 70);
   ("eighty", 80); ("ninety", 90); ("hundred", 100); ("thousand", 1000);
   ("million", 1000000); ("billion", 1000000000)].

Definition number_word_value (word : string) : option Z :=
  snd <$> List.find (λ entry, String.eqb entry.1 word) american_number_system.

(** The words the library keeps: the number words and [point]. *)
Definition is_number_word (word : string) : bool :=
  bool_decide (is_Some (number_word_value word)) || String.eqb word "point".

(** [w2n.word_to_num(s)] on a byte string: hyphens become spaces and the
    case is lowered; a string of digits is its own value; otherwise the
    number words of the sentence are kept, a sentence without any is a
    [ValueError], a single number word has the value of the table, and
    longer sentences are left to [w2n_sentence]. *)
Definition word_to_num (env : Env) (number_sentence : string)
  : outcome pyval :=
  let number_sentence := lower (replace "-" " " number_sentence) in
  if isdigit number_sentence then PyInt <$> int_of_str number_sentence
  else
    let split_words :=
      split_ws isspace_bytes (strip isspace_bytes number_sentence) in
    let clean_numbers := List.filter is_number_word split_words in
    match clean_numbers with
    | [] => Raises ValueError
    | [word] =>
        match number_word_value word with
        | Some n => Returns (PyInt n)
        | None => w2n_sentence env clean_numbers
        end
    | _ => w2n_sentence env clean_numbers
    end.

(* ===================================================================== *)
(** * The converters *)
(* ===================================================================== *)

(** The receiver of a string method ([v.split(...)], [v.strip()], ...).
    [None] and numbers have no such attribute; on a tag the attribute is a
    search for a child tag of that name, and calling its result fails.
    Which exception it is makes no difference under a bare [except]. *)
Definition as_string (v : pyval) : outcome string :=
  match v with
  | PyStr s | PyElement (_, NavigableString s) => Returns s
  | PyElement (_, Tag _ _ _) => Raises TypeError
  | _ => Raises AttributeError
  end.

(** The receiver of [.stripped_strings]. *)
Definition as_tag (v : pyval) : outcome node :=
  match v with
  | PyElement (_, Tag name attrs contents) => Returns (Tag name attrs contents)
  | _ => Raises AttributeError
  end.

Definition clean_title (titlestring : pyval) : outcome pyval :=
  try_except
    (s ← as_string titlestring;
     head ← py_index (split "(" s) 0;
     title ← str_of_unicode head;
     Returns (PyStr (strip isspace_bytes title)))
    (Returns PyNone).

Definition to_date (env : Env) (datestring : pyval) : outcome pyval :=
  try_except
    (s ← as_string datestring;
     date ← dateutil_parse env (strip isspace_unicode s);
     Returns (PyDateTime date))
    (Returns PyNone).

Definition money_to_int (moneystring : pyval) : outcome pyval :=
  try_except
    (s ← as_string moneystring;
     let moneystring := replace "," "" (replace "$" "" s) in
     PyInt <$> int_of_str moneystring)
    (Returns PyNone).

Definition vals_dict : gmap string Z :=
  list_to_map
    [("thousand", 1000); ("million", 1000000); ("billion", 1000000000)].

Definition budget_to_int (budgetstring : pyval) : outcome pyval :=
  try_except
    (s ← as_string budgetstring;
     let budget_val_list := split " " (replace "$" "" s) in
     number ← py_index budget_val_list 0;
     x ← float_of_str number;
     word ← py_index budget_val_list 1;
     scale ← match vals_dict !! word with
             | Some k => Returns k
             | None => Raises KeyError
             end;
     let budget := float_mul x (float_of_Z scale) in
     PyInt <$> int_of_float budget)
    (Returns PyNone).

Definition people_to_list (peopleobj : pyval) : outcome pyval :=
  match peopleobj with
  | PyNone => Returns PyNone
  | _ =>
      try_except
        (tag ← as_tag peopleobj;
         people_list ←
           map_outcome
             (λ person, str_of_unicode (strip (Ascii.eqb "*") person))
             (List.filter (λ person, negb (has_char "(" person))
                          (stripped_strings tag));
         Returns (PyList people_list))
        (Returns PyNone)
  end.

Definition noms_from_oscars (env : Env) (oscarsstring : pyval)
  : outcome pyval :=
  try_except
    (s ← as_string oscarsstring;
     clause ← py_index (split "," s) 0;
     clause ← str_of_unicode clause;
     let nominations_str :=
       split " " (lower (strip isspace_bytes clause)) in
     word ← py_index nominations_str 2;
     word_to_num env word)
    (Returns (PyInt 0)).

Definition wins_from_oscars (env : Env) (oscarsstring : pyval)
  : outcome pyval :=
  try_except
    (s ← as_string oscarsstring;
     clause ← py_index (split "," s) 1;
     clause ← str_of_unicode clause;
     let wins_str :=
       split " " (lower (strip isspace_bytes (replace "." "" clause))) in
     word ← py_index wins_str 1;
     word_to_num env word)
    (Returns (PyInt 0)).

Definition theaters_to_int (theaterstring : pyval) : outcome pyval :=
  try_except
    (s ← as_string theaterstring;
     theaters ←
       py_index (split " " (replace "," "" (strip isspace_unicode s))) 0;
     PyInt <$> int_of_str theaters)
    (Returns PyNone).

Definition runtime_to_minutes (runtimestring : pyval) : outcome pyval :=
  try_except
    (s ← as_string runtimestring;
     let runtime := split_ws isspace_unicode s in
     hours ← py_index runtime 0;
     hours ← int_of_str hours;
     mins ← py_index runtime 2;
     mins ← int_of_str mins;
     Returns (PyInt (hours * 60 + mins)))
    (Returns PyNone).

(* ===================================================================== *)
(** * [get_movie_data]: one detail page, one dictionary *)
(* ===================================================================== *)

Definition headers : list string :=
  ["1-title"; "rating"; "genre"; "distributor"; "theaters"; "budget";
   "dom_total_gross"; "intl_total_gross"; "oscar_noms"; "oscar_wins";
   "2-release_date"; "3-closing_date"; "runtime_(mins)"; "director";
   "writers"; "actors"; "producers"].

(** [dict(zip(keys, values))], for keys that are all different. *)
Definition dict_of_zip (keys : list string) (values : list pyval)
  : gmap string pyval :=
  list_to_map (zip keys values).
Arguments dict_of_zip : simpl never.

(** [soup.find('title').text]: without a [title] tag the attribute is
    looked up on [None]. *)
Definition title_text (soup : node) : outcome pyval :=
  match find_tag (tag_named "title") ([], soup) with
  | Some title => Returns (PyStr (get_text title.2))
  | None => Raises AttributeError
  end.

Definition get_movie_data (env : Env) (soup : node)
  : outcome (gmap string pyval) :=
  raw_title ← title_text soup;
  title ← clean_title raw_title;
  let raw_rating := get_movie_value env soup "MPAA Rating" false in
  rating ← py_str env raw_rating;
  let raw_genre := get_movie_value env soup "Genre:" false in
  genre ← py_str env raw_genre;
  let raw_distributor := get_movie_value env soup "Distributor" false in
  distributor ← py_str env raw_distributor;
  let raw_theaters := get_movie_value env soup "Widest" false in
  theaters ← theaters_to_int raw_theaters;
  let raw_budget := get_movie_value env soup "Production" false in
  budget ← budget_to_int raw_budget;
  let raw_domestic_total_gross :=
    get_movie_value env soup "Domestic Total" false in
  domestic_total_gross ← money_to_int raw_domestic_total_gross;
  let raw_intl_total_gross := get_movie_value env soup "Worldwide" false in
  intl_total_gross ← money_to_int raw_intl_total_gross;
  let raw_oscars := get_movie_value env soup "Academy Awards" false in
  oscar_noms ← noms_from_oscars env raw_oscars;
  oscar_wins ← wins_from_oscars env raw_oscars;
  let raw_release_date := get_movie_value env soup "Release Date" false in
  release_date ← to_date env raw_release_date;
  let raw_closing_date := get_movie_value env soup "Close" false in
  closing_date ← to_date env raw_closing_date;
  let raw_runtime := get_movie_value env soup "Runtime" false in
  runtime ← runtime_to_minutes raw_runtime;
  let raw_director := get_movie_value env soup "Director" true in
  director ← people_to_list raw_director;
  let raw_writers := get_movie_value env soup "Writer" true in
  writers ← people_to_list raw_writers;
  let raw_actors := get_movie_value env soup "Actor" true in
  actors ← people_to_list raw_actors;
  let raw_producers := get_movie_value env soup "Producer" true in
  producers ← people_to_list raw_producers;
  Returns
    (dict_of_zip headers
       [title; PyStr rating; PyStr genre; PyStr distributor; theaters;
        budget; domestic_total_gross; intl_total_gross; oscar_noms;
        oscar_wins; release_date; closing_date; runtime; director;
        writers; actors; producers]).

(* ===================================================================== *)
(** * The crawl of the index pages *)
(* ===================================================================== *)

Definition expect {A : Type} (found : option A) : outcome A :=
  match found with
  | Some a => Returns a
  | None => Raises AttributeError
  end.

(** [get_movies_on_page(soup)].  [soup.body] is the first [body] tag and
    the search goes on below the tag whose [id] is [body]; a missing tag
    is [None], and the next attribute access on it raises.  The
    comprehension reads [tag['href']] of every link, in its condition, so
    a link without that attribute is a [KeyError]. *)
Definition get_movies_on_page (soup : node) : outcome (list string) :=
  soup_body ← expect (find_tag (tag_named "body") ([], soup));
  body ← expect (find_tag (tag_with_attr "id" "body") soup_body);
  hrefs ← map_outcome (λ tag, tag_attr tag "href")
                      (find_all (tag_named "a") body);
  let movies_on_page := List.filter (contains "movies/?id") hrefs in
  Returns ([] ++ movies_on_page).

Definition index_url_prefix : string :=
  "http://www.boxofficemojo.com/movies/alphabetical.htm?letter=".
Definition index_url_suffix : string := "&page=".

Definition index_url (letter : string) (page : nat) : string :=
  index_url_prefix +:+ letter +:+ index_url_suffix +:+ str_of_nat page.

(** The [while True] loop of one letter, from page [page] on, with the
    list accumulated so far.  [None]: the fuel ran out, the loop was still
    going. *)
Fixpoint pages_loop (fuel : nat) (env : Env) (letter : string) (page : nat)
    (all_movie_urls : list string) (w : world)
  : option (outcome (list string) * world) :=
  match fuel with
  | O => None
  | S fuel' =>
      let url := index_url letter page in
      let (page_soup, w) := get_movie_page env url w in
      match page_soup ≫= get_movies_on_page with
      | Raises e => Some (Raises e, w)
      | Returns movie_urls =>
          let all_movie_urls := all_movie_urls ++ movie_urls in
          let page := (page + 1)%nat in
          if (length movie_urls =? 0)%nat
          then Some (Returns all_movie_urls, w)
          else pages_loop fuel' env letter page all_movie_urls w
      end
  end.

(** The [for letter in letter_list] loop; each letter has [fuel] pages. *)
Fixpoint letters_loop (fuel : nat) (env : Env) (letter_list : list string)
    (all_movie_urls : list string) (w : world)
  : option (outcome (list string) * world) :=
  match letter_list with
  | [] => Some (Returns all_movie_urls, w)
  | letter :: rest =>
      match pages_loop fuel env letter 1 all_movie_urls w with
      | None => None
      | Some (Raises e, w) => Some (Raises e, w)
      | Some (Returns all_movie_urls, w) =>
          letters_loop fuel env rest all_movie_urls w
      end
  end.

Definition get_movies_from_letters (fuel : nat) (env : Env)
    (letter_list : list string) (w : world)
  : option (outcome (list string) * world) :=
  letters_loop fuel env letter_list [] w.

Definition get_num_movies (env : Env) (w : world)
  : outcome (list string) * world :=
  let url := "http://www.boxofficemojo.com/movies/alphabetical.htm?letter=NUM" in
  let (page_soup, w) := get_movie_page env url w in
  (page_soup ≫= get_movies_on_page, w).

(* ===================================================================== *)
(** * [get_all_movie_data]: every detail page *)
(* ===================================================================== *)

Definition detail_url_prefix : string := "http://www.boxofficemojo.com".

(** The body of the [try] for one URL: fetch, assemble, add the reference
    taken from the URL. *)
Definition process_movie (env : Env) (movie : string) (w : world)
  : outcome (gmap string pyval) * world :=
  let url := detail_url_prefix +:+ movie in
  let (soup, w) := get_movie_page env url w in
  (soup ← soup;
   data_dict ← get_movie_data env soup;
   reference ← py_index (split "=" movie) 1;
   Returns (<["url" := PyStr reference]> data_dict),
   w).

(** One turn of the [for movie in url_list] loop on the two result lists. *)
Definition movie_step (env : Env) (movie : string)
    (state : list (gmap string pyval) * list string * world)
  : list (gmap string pyval) * list string * world :=
  let '(all_movie_data, failed_urls, w) := state in
  let url := detail_url_prefix +:+ movie in
  let (result, w) := process_movie env movie w in
  match result with
  | Returns data_dict =>
      (all_movie_data ++ [data_dict], failed_urls,
       print ("processed: " +:+ url) w)
  | Raises _ =>
      (all_movie_data, failed_urls ++ [url],
       print ("processed: " +:+ url)
             (print ("error processing url: " +:+ url) w))
  end.

Definition movies_loop (env : Env) (url_list : list string)
    (state : list (gmap string pyval) * list string * world)
  : list (gmap string pyval) * list string * world :=
  foldl (λ state movie, movie_step env movie state) state url_list.

Definition get_all_movie_data (env : Env) (url_list : list string)
    (w : world) : list (gmap string pyval) * list string * world :=
  movies_loop env url_list ([], [], w).

(** [print line] when writing can fail.  The two [print] statements of
    [get_all_movie_data] are outside the [try] and in its handler, so an
    exception of theirs leaves the function.  [stdout_error line] is the
    exception that writing [line] to the standard output ends in, if
    there is one (a closed stream, or a character the encoding of the
    stream does not have). *)
Definition print_or_raise (stdout_error : string → option exn)
    (line : string) (w : world) : outcome unit * world :=
  match stdout_error line with
  | None => (Returns (), print line w)
  | Some e => (Raises e, w)
  end.

(** One turn of the loop of [get_all_movie_data], with such a [print]. *)
Definition movie_step_writing (stdout_error : string → option exn)
    (env : Env) (movie : string)
    (state : list (gmap string pyval) * list string * world)
  : outcome (list (gmap string pyval) * list string) * world :=
  let '(all_movie_data, failed_urls, w) := state in
  let url := detail_url_prefix +:+ movie in
  let (result, w) := process_movie env movie w in
  match result with
  | Returns data_dict =>
      let (written, w) :=
        print_or_raise stdout_error ("processed: " +:+ url) w in
      (written ≫= λ _, Returns (all_movie_data ++ [data_dict], failed_urls),
       w)
  | Raises _ =>
      let (written, w) :=
        print_or_raise stdout_error ("error processing url: " +:+ url) w in
      match written with
      | Raises e => (Raises e, w)
      | Returns _ =>
          let failed_urls := failed_urls ++ [url] in
          let (written, w) :=
            print_or_raise stdout_error ("processed: " +:+ url) w in
          (written ≫= λ _, Returns (all_movie_data, failed_urls), w)
      end
  end.

Fixpoint movies_loop_writing (stdout_error : string → option exn)
    (env : Env) (url_list : list string)
    (state : list (gmap string pyval) * list string * world)
  : outcome (list (gmap string pyval) * list string) * world :=
  match url_list with
  | [] => (Returns (state.1.1, state.1.2), state.2)
  | movie :: rest =>
      match movie_step_writing stdout_error env movie state with
      | (Returns (all_movie_data, failed_urls), w) =>
          movies_loop_writing stdout_error env rest
            (all_movie_data, failed_urls, w)
      | (Raises e, w) => (Raises e, w)
      end
  end.

(** [get_all_movie_data(url_list)] with such a [print]: the two lists, or
    the exception of a [print]. *)
Definition get_all_movie_data_writing (stdout_error : string → option exn)
    (env : Env) (url_list : list string) (w : world)
  : outcome (list (gmap string pyval) * list string) * world :=
  movies_loop_writing stdout_error env url_list ([], [], w).

(** The lines the loop writes for a URL can be written. *)
Definition lines_can_be_written (stdout_error : string → option exn)
    (movie : string) : Prop :=
  stdout_error ("processed: " +:+ detail_url_prefix +:+ movie) = None ∧
  stdout_error ("error processing url: " +:+ detail_url_prefix +:+ movie)
    = None.

(* ===================================================================== *)
(** * Vocabulary of the statements *)
(* ===================================================================== *)

(** A converter's outcome: it returned, and the value is the default or
    has the type of the field. *)
Definition value_or (default : pyval) (typed : pyval → Prop)
    (r : outcome pyval) : Prop :=
  ∃ v, r = Returns v ∧ (v = default ∨ typed v).

Definition is_str (v : pyval) : Prop := ∃ s, v = PyStr s.
Definition is_int (v : pyval) : Prop := ∃ z, v = PyInt z.
Definition is_date (v : pyval) : Prop := ∃ d, v = PyDateTime d.
Definition is_list (v : pyval) : Prop := ∃ l, v = PyList l.

(** A value the word-to-number library produced for some word. *)
Definition is_count (env : Env) (v : pyval) : Prop :=
  ∃ word, word_to_num env word = Returns v.

(** The three magnitude words and their factors. *)
Definition magnitude (word : string) (k : Z) : Prop :=
  (word = "thousand" ∧ k = 1000) ∨
  (word = "million" ∧ k = 1000000) ∨
  (word = "billion" ∧ k = 1000000000).

(** The count read in a clause of the awards sentence: the clause as a
    byte string, tidied, lowered and cut at the spaces; its word number
    [i], through the library; 0 when a step fails. *)
Definition clause_count (env : Env) (tidy : string → string)
    (clause : string) (i : nat) : outcome pyval :=
  try_except
    (clause ← str_of_unicode clause;
     word ← py_index (split " " (lower (tidy clause))) i;
     word_to_num env word)
    (Returns (PyInt 0)).

(** What requesting page [page] of [letter] yields, links or exception,
    when [history] lists the requests made before. *)
Definition page_urls (env : Env) (letter : string) (page : nat)
    (history : list string) : outcome (list string) :=
  (text ← http_get env history (index_url letter page);
   BeautifulSoup env text) ≫= get_movies_on_page.

(** The loop goes on to the next page exactly after a page with links. *)
Definition has_links (r : outcome (list string)) : bool :=
  match r with
  | Returns (_ :: _) => true
  | _ => false
  end.

(** The requests for [k] pages of [letter] in a row, from [page] on. *)
Definition page_requests (letter : string) (page k : nat) : list string :=
  map (index_url letter) (seq page k).

(** The world after one more request. *)
Definition after_request (url : string) (w : world) : world :=
  {| requested := requested w ++ [url]; stdout := stdout w |}.

(** The links served in answer to a run of index requests made one after
    the other, all occurrences in the order of arrival; a request that
    fails serves none. *)
Fixpoint served (env : Env) (history : list string) (urls : list string)
  : list string :=
  match urls with
  | [] => []
  | url :: urls' =>
      match (text ← http_get env history url;
             BeautifulSoup env text) ≫= get_movies_on_page with
      | Returns links => links
      | Raises _ => []
      end ++ served env (history ++ [url]) urls'
  end.

(** The outcomes of the guarded block for the URLs of a list, in order,
    each in the world its predecessors left. *)
Fixpoint movie_outcomes (env : Env) (url_list : list string) (w : world)
  : list (outcome (gmap string pyval)) :=
  match url_list with
  | [] => []
  | movie :: rest =>
      let (result, w1) := process_movie env movie w in
      result :: movie_outcomes env rest w1
  end.

(** The nodes after child number [i] in the contents [cs] of the tag at
    [up], with their positions. *)
Definition later_children (up : path) (i : nat) (cs : list node)
  : list element :=
  imap (λ k c, ((S i + k)%nat :: up, c)) (drop (S i) cs).

(** In the tree [n], whose root is at [here], the position [up] holds a
    tag with the contents [cs]. *)
Definition tag_at (here : path) (n : node) (up : path) (cs : list node)
  : Prop :=
  (up = here ∧ ∃ name attrs, n = Tag name attrs cs) ∨
  (∃ name attrs, (up, Tag name attrs cs) ∈ descendants_from here n).

(** Below a child of [n], the later siblings are the later children of
    the parent. *)
Definition siblings_known (n : node) : Prop :=
  ∀ here up cs i c,
    tag_at here n up cs → cs !! i = Some c →
    (i :: up, c) ∈ descendants_from here n ∧
    filter (λ e : element, parent_path e.1 = Some up)
           (elements_after (i :: up) (descendants_from here n))
    = later_children up i cs.

(** Every element below [n] is a child of a tag of the tree. *)
Definition parent_known (n : node) : Prop :=
  ∀ here x c,
    (x, c) ∈ descendants_from here n →
    ∃ i up cs, x = i :: up ∧ cs !! i = Some c ∧ tag_at here n up cs.

(** No string of the document is accepted by the pattern. *)
Definition no_string_matches (env : Env) (pattern : string) (soup : node)
  : Prop :=
  ∀ e s, e ∈ descendants soup → e.2 = NavigableString s →
         re_search env pattern s = false.

(** The record of an outcome, and the failure entry of an outcome. *)
Definition record_of (result : outcome (gmap string pyval))
  : option (gmap string pyval) :=
  match result with
  | Returns data_dict => Some data_dict
  | Raises _ => None
  end.

Definition failure_of (entry : string * outcome (gmap string pyval))
  : option string :=
  match entry.2 with
  | Returns _ => None
  | Raises _ => Some (detail_url_prefix +:+ entry.1)
  end.

(* ===================================================================== *)
(** * Sample documents and sites *)
(* ===================================================================== *)

Definition new_line : string := String (chr 10) EmptyString.

(** The awards sentence of the specification's table of examples. *)
Definition oscars_sample : string :=
  "Nominated for 3 Oscars." +:+ new_line +:+ "Won 1, including Best Picture.".

Definition anchor (href : string) : node :=
  Tag "a" {[ "href" := href ]} [NavigableString "a movie"].

(** An index page with the given link targets. *)
Definition index_page (hrefs : list string) : node :=
  Tag "[document]" ∅
    [Tag "html" ∅
       [Tag "head" ∅ [Tag "title" ∅ [NavigableString "Movies A-Z"]];
        Tag "body" ∅
          [Tag "div" {[ "id" := "body" ]} (map anchor hrefs)]]].

(** A detail page: the genre is the sibling of its label, the runtime
    follows its label in the next cell, and rating and distributor are
    not on the page. *)
Definition detail_page : node :=
  Tag "[document]" ∅
    [Tag "html" ∅
       [Tag "head" ∅ [Tag "title" ∅ [NavigableString "Foo Bar (2001)"]];
        Tag "body" ∅
          [Tag "td" ∅ [NavigableString "Genre: ";
                       Tag "b" ∅ [NavigableString "Drama"]];
           Tag "td" ∅ [Tag "b" ∅ [NavigableString "Runtime:"]];
           Tag "td" ∅ [NavigableString "2 hrs. 15 min."];
           NavigableString "Production Budget: $12.5 million"]]].

(** A site whose page text is the word [detail] or the comma-separated
    link targets of an index page; patterns are literal. *)
Definition sample_site (answer : list string → string → outcome string)
  : Env :=
  {| http_get := answer;
     BeautifulSoup := λ text,
       Returns (if String.eqb text "detail" then detail_page
                else index_page (split "," text));
     re_search := contains;
     dateutil_parse := λ _, Raises ValueError;
     w2n_sentence := λ _, Raises ValueError;
     str_of_object := λ _, Raises (LibraryError "markup") |}.

Definition movie_a : string := "/movies/?id=a.htm".

(** Every index page lists one movie, for ever. *)
Definition endless_site : Env := sample_site (λ _ _, Returns movie_a).

(** Page 1 of the letters A and B lists the same movie; every other page
    is empty. *)
Definition one_page_site : Env :=
  sample_site (λ _ url,
    if bool_decide (url = index_url "A" 1 ∨ url = index_url "B" 1)
    then Returns movie_a else Returns "").

(** The first request of a run fails; every later one is answered. *)
Definition flaky_site : Env :=
  sample_site (λ history _,
    match history with
    | [] => Raises (LibraryError "ConnectionError")
    | _ => Returns movie_a
    end).

(** Five links, the last one without an [=]. *)
Definition five_movies : list string :=
  ["/movies/?id=a.htm"; "/movies/?id=b.htm"; "/movies/?id=c.htm";
   "/movies/?id=d.htm"; "/movies/?id"].

(** Page 1 of the letter A lists the five movies, the other index pages
    are empty, and every other request is answered with the detail
    page. *)
Definition five_movie_site : Env :=
  sample_site (λ _ url,
    if String.eqb url (index_url "A" 1)
    then Returns (String.concat "," five_movies)
    else if String.prefix index_url_prefix url then Returns ""
    else Returns "detail").

(** Every request is answered with the detail page. *)
Definition detail_site : Env := sample_site (λ _ _, Returns "detail").

Definition fresh_world : world := {| requested := []; stdout := [] |}.

(** The first request of a run fails; every later one is answered with
    the detail page. *)
Definition flaky_detail_site : Env :=
  sample_site (λ history _,
    match history with
    | [] => Raises (LibraryError "ConnectionError")
    | _ => Returns "detail"
    end).

(** A standard output that takes ASCII only, as when the output of
    Python 2 goes to a pipe. *)
Definition ascii_stdout (line : string) : option exn :=
  if str_forallb (λ c, (ord c <? 128)%nat) line then None
  else Some UnicodeEncodeError.

(** A link with a character above 127. *)
Definition movie_amelie : string :=
  "/movies/?id=am" +:+ String (chr 233) "lie.htm".

(** Two cells whose labels are in bold, each followed by its value as
    text: [<td><b>Genre:</b> Drama</td><td><b>Runtime:</b> 2 hrs</td>]. *)
Definition bold_label_page : node :=
  Tag "[document]" ∅
    [Tag "tr" ∅
       [Tag "td" ∅ [Tag "b" ∅ [NavigableString "Genre:"];
                    NavigableString " Drama"];
        Tag "td" ∅ [Tag "b" ∅ [NavigableString "Runtime:"];
                    NavigableString " 2 hrs"]]].

(* ===================================================================== *)
(** * Vocabulary of the further properties *)
(* ===================================================================== *)

(** The characters of a string that reads as an amount of money: digits,
    a sign, white space, and the two separators that are removed. *)
Definition money_char (c : ascii) : bool :=
  is_digit c || isspace_unicode c || Ascii.eqb c "+" || Ascii.eqb c "-"
  || Ascii.eqb c "$" || Ascii.eqb c ",".

(** A string [str()] lets through: no character above 127. *)
Definition is_ascii (s : string) : bool :=
  str_forallb (λ c, (ord c <? 128)%nat) s.

(** The names [people_to_list] keeps: the stripped strings of the tag
    that hold no parenthesis. *)
Definition kept_names (tag : node) : list string :=
  List.filter (λ person, negb (has_char "(" person)) (stripped_strings tag).

(** The awards sentence of a detail page, with the counts in digits. *)
Definition award_sentence (nominations wins : nat) : string :=
  "Nominated for " +:+ str_of_nat nominations +:+ " Oscars, won "
    +:+ str_of_nat wins +:+ ".".

(** The part of an index page the links are taken from: the first tag
    with [id="body"] below the first [body] tag. *)
Definition link_area (soup : node) : option element :=
  find_tag (tag_named "body") ([], soup)
    ≫= find_tag (tag_with_attr "id" "body").

(** Crawling a list of letters after another one: the second crawl starts
    in the world the first one left, and the first exception ends both. *)
Definition crawl_then (first : option (outcome (list string) * world))
    (second : world → option (outcome (list string) * world))
  : option (outcome (list string) * world) :=
  match first with
  | Some (Returns urls1, w1) =>
      match second w1 with
      | Some (Returns urls2, w2) => Some (Returns (urls1 ++ urls2), w2)
      | stopped => stopped
      end
  | stopped => stopped
  end.

(** The requests of a crawl in which letter number [i] of the list took
    [S k] pages, [k] being number [i] of [counts]. *)
Definition crawl_requests (letter_list : list string) (counts : list nat)
  : list string :=
  concat (zip_with (λ letter k, page_requests letter 1 (S k))
                   letter_list counts).



(* ===================================================================== *)
(** * Outcomes: basic facts *)
(* ===================================================================== *)

Lemma bind_returns {A B : Type} (m : outcome A) (f : A → outcome B) b :
  m ≫= f = Returns b ↔ ∃ a, m = Returns a ∧ f a = Returns b.
Proof.
  destruct m as [a|e]; simpl; split.
  - eauto.
  - intros (a' & Ha & Hf). by inversion Ha; subst.
  - discriminate.
  - intros (? & Ha & _). discriminate.
Qed.

Lemma fmap_returns {A B : Type} (g : A → B) (m : outcome A) b :
  g <$> m = Returns b ↔ ∃ a, m = Returns a ∧ b = g a.
Proof.
  destruct m as [a|e]; simpl; split.
  - intros [= <-]. eauto.
  - intros (a' & [= <-] & ->). done.
  - discriminate.
  - intros (? & Ha & _). discriminate.
Qed.

(** A guarded block with a constant handler returns, and what it returns
    is the handler's constant unless the body returned it. *)
Lemma try_except_returns {A : Type} (body : outcome A) (default : A) :
  ∃ v, try_except body (Returns default) = Returns v
       ∧ (v = default ∨ body = Returns v).
Proof. destruct body as [a|e]; simpl; eauto. Qed.

(* ===================================================================== *)
(** * The converters never raise *)
(* ===================================================================== *)

Section Converters.
Variable env : Env.

Lemma guarded_value (body : outcome pyval) (default : pyval)
    (typed : pyval → Prop) :
  (∀ v, body = Returns v → typed v) →
  value_or default typed (try_except body (Returns default)).
Proof.
  intros Hbody. destruct (try_except_returns body default) as (v & -> & Hv).
  exists v. split; [done|]. destruct Hv as [->|Hv]; [by left|right; auto].
Qed.

Lemma clean_title_value v : value_or PyNone is_str (clean_title v).
Proof.
  apply guarded_value. intros r.
  rewrite bind_returns. intros (s & _ & H). revert H.
  rewrite bind_returns. intros (h & _ & H). revert H.
  rewrite bind_returns. intros (t & _ & [= <-]). by eexists.
Qed.

Lemma to_date_value v : value_or PyNone is_date (to_date env v).
Proof.
  apply guarded_value. intros r.
  rewrite bind_returns. intros (s & _ & H). revert H.
  rewrite bind_returns. intros (d & _ & [= <-]). by eexists.
Qed.

Lemma money_to_int_value v : value_or PyNone is_int (money_to_int v).
Proof.
  apply guarded_value. intros r.
  rewrite bind_returns. intros (s & _ & H). revert H.
  rewrite fmap_returns. intros (z & _ & ->). by eexists.
Qed.

Lemma budget_to_int_value v : value_or PyNone is_int (budget_to_int v).
Proof.
  apply guarded_value. intros r.
  rewrite bind_returns. intros (s & _ & H). revert H.
  rewrite bind_returns. intros (number & _ & H). revert H.
  rewrite bind_returns. intros (x & _ & H). revert H.
  rewrite bind_returns. intros (word & _ & H). revert H.
  rewrite bind_returns. intros (k & _ & H). revert H.
  rewrite fmap_returns. intros (z & _ & ->). by eexists.
Qed.

Lemma people_to_list_value v : value_or PyNone is_list (people_to_list v).
Proof.
  destruct v; unfold people_to_list; lazy beta iota;
    try (apply guarded_value; intros r;
         rewrite bind_returns; intros (? & _ & H); revert H;
         rewrite bind_returns; intros (? & _ & [= <-]); by eexists).
  exists PyNone. auto.
Qed.

Lemma noms_from_oscars_value v :
  value_or (PyInt 0) (is_count env) (noms_from_oscars env v).
Proof.
  apply guarded_value. intros r.
  rewrite bind_returns. intros (s & _ & H). revert H.
  rewrite bind_returns. intros (c & _ & H). revert H.
  rewrite bind_returns. intros (c' & _ & H). revert H.
  rewrite bind_returns. intros (word & _ & H). by exists word.
Qed.

Lemma wins_from_oscars_value v :
  value_or (PyInt 0) (is_count env) (wins_from_oscars env v).
Proof.
  apply guarded_value. intros r.
  rewrite bind_returns. intros (s & _ & H). revert H.
  rewrite bind_returns. intros (c & _ & H). revert H.
  rewrite bind_returns. intros (c' & _ & H). revert H.
  rewrite bind_returns. intros (word & _ & H). by exists word.
Qed.

Lemma theaters_to_int_value v : value_or PyNone is_int (theaters_to_int v).
Proof.
  apply guarded_value. intros r.
  rewrite bind_returns. intros (s & _ & H). revert H.
  rewrite bind_returns. intros (t & _ & H). revert H.
  rewrite fmap_returns. intros (z & _ & ->). by eexists.
Qed.

Lemma runtime_to_minutes_value v :
  value_or PyNone is_int (runtime_to_minutes v).
Proof.
  apply guarded_value. intros r.
  rewrite bind_returns. intros (s & _ & H). revert H.
  rewrite bind_returns. intros (h & _ & H). revert H.
  rewrite bind_returns. intros (hz & _ & H). revert H.
  rewrite bind_returns. intros (m & _ & H). revert H.
  rewrite bind_returns. intros (mz & _ & [= <-]). by eexists.
Qed.

End Converters.

(** C6. Every converter is total: on any value whatever (text, [None], a
    tag, a number, ...) and with any behaviour of the libraries it calls,
    it returns, never raises, and what it returns is a value of the
    field's type or the default: [None], and 0 for the two award counts.
    On the malformed inputs [None], ["N/A"] and [""] the integer, list and
    count converters return their default. *)
Theorem converters_are_total (env : Env) (v : pyval) :
  (value_or PyNone is_str (clean_title v) ∧
   value_or PyNone is_date (to_date env v) ∧
   value_or PyNone is_int (money_to_int v) ∧
   value_or PyNone is_int (budget_to_int v) ∧
   value_or PyNone is_list (people_to_list v) ∧
   value_or (PyInt 0) (is_count env) (noms_from_oscars env v) ∧
   value_or (PyInt 0) (is_count env) (wins_from_oscars env v) ∧
   value_or PyNone is_int (theaters_to_int v) ∧
   value_or PyNone is_int (runtime_to_minutes v)) ∧
  Forall (λ bad,
            money_to_int bad = Returns PyNone ∧
            budget_to_int bad = Returns PyNone ∧
            people_to_list bad = Returns PyNone ∧
            noms_from_oscars env bad = Returns (PyInt 0) ∧
            wins_from_oscars env bad = Returns (PyInt 0) ∧
            theaters_to_int bad = Returns PyNone ∧
            runtime_to_minutes bad = Returns PyNone)
         [PyNone; PyStr "N/A"; PyStr ""] ∧
  clean_title PyNone = Returns PyNone ∧
  to_date env PyNone = Returns PyNone.
Proof.
  split; [|split; [|split]].
  - repeat split.
    + apply clean_title_value.
    + apply to_date_value.
    + apply money_to_int_value.
    + apply budget_to_int_value.
    + apply people_to_list_value.
    + apply noms_from_oscars_value.
    + apply wins_from_oscars_value.
    + apply theaters_to_int_value.
    + apply runtime_to_minutes_value.
  - repeat constructor; vm_compute; reflexivity.
  - reflexivity.
  - reflexivity.
Qed.

(* ===================================================================== *)
(** * The award counts *)
(* ===================================================================== *)

(** C3, as the code has it.  The sentence is cut at the commas: the
    nominations are the third word of what precedes the first comma, the
    wins the second word of what lies between the first and the second
    comma, full stops removed; each word goes through the word-to-number
    library and any failure gives 0.  On the sentence of the
    specification's example the nominations are 3 and the wins are 0, the
    text after its comma being [including Best Picture.]; on
    [Nominated for 3 Oscars, won 1.] they are 3 and 1, and number words
    are read as well as digits. *)
Theorem award_counts_by_clause (env : Env) :
  (∀ s,
     noms_from_oscars env (PyStr s) =
       match split "," s with
       | clause :: _ => clause_count env (strip isspace_bytes) clause 2
       | [] => Returns (PyInt 0)
       end ∧
     wins_from_oscars env (PyStr s) =
       match split "," s with
       | _ :: clause :: _ =>
           clause_count env
             (λ c, strip isspace_bytes (replace "." "" c)) clause 1
       | _ => Returns (PyInt 0)
       end) ∧
  noms_from_oscars env (PyStr oscars_sample) = Returns (PyInt 3) ∧
  wins_from_oscars env (PyStr oscars_sample) = Returns (PyInt 0) ∧
  noms_from_oscars env (PyStr "Nominated for 3 Oscars, won 1.")
    = Returns (PyInt 3) ∧
  wins_from_oscars env (PyStr "Nominated for 3 Oscars, won 1.")
    = Returns (PyInt 1) ∧
  noms_from_oscars env (PyStr "Nominated for eleven Oscars, won seven.")
    = Returns (PyInt 11) ∧
  wins_from_oscars env (PyStr "Nominated for eleven Oscars, won seven.")
    = Returns (PyInt 7).
Proof.
  split; [|repeat split; vm_compute; reflexivity].
  intros s. unfold noms_from_oscars, wins_from_oscars, clause_count.
  simpl. destruct (split "," s) as [|c1 [|c2 rest]]; simpl; auto.
  all: repeat match goal with
         | |- context [str_of_unicode ?c] => destruct (str_of_unicode c); simpl
         end; auto.
Qed.

(** C3, counterexample: on the sentence of the example the wins converter
    returns 0, not 1. *)
Lemma wins_of_sample_is_not_one :
  wins_from_oscars detail_site (PyStr oscars_sample) = Returns (PyInt 0) ∧
  wins_from_oscars detail_site (PyStr oscars_sample) ≠ Returns (PyInt 1).
Proof. split; [vm_compute; reflexivity | vm_compute; discriminate]. Qed.

(* ===================================================================== *)
(** * The scaled budget *)
(* ===================================================================== *)

Lemma vals_dict_lookup word k : vals_dict !! word = Some k ↔ magnitude word k.
Proof.
  unfold vals_dict, magnitude. simpl.
  rewrite !lookup_insert_Some, lookup_empty. intuition congruence.
Qed.

(** What the budget converter computes, in full.  It takes a string, removes the dollar signs
    and cuts at the spaces; the first piece is read as a float, the second is looked up
    among [thousand], [million] and [billion]; the product of the float
    with 1000, 1000000 or 1000000000, truncated, is the result; pieces
    after the second are not looked at.  An integer comes out exactly for
    the inputs of that shape, and [None] for all others;
    ["$12.5 million"] gives 12500000. *)
Theorem budget_to_int_scales :
  budget_to_int (PyStr "$12.5 million") = Returns (PyInt 12500000) ∧
  (∀ v z,
     budget_to_int v = Returns (PyInt z) ↔
     ∃ s number word rest x k,
       as_string v = Returns s ∧
       split " " (replace "$" "" s) = number :: word :: rest ∧
       float_of_str number = Returns x ∧
       magnitude word k ∧
       int_of_float (float_mul x (float_of_Z k)) = Returns z) ∧
  (∀ v, (∃ z, budget_to_int v = Returns (PyInt z)) ∨
        budget_to_int v = Returns PyNone).
Proof.
  split; [vm_compute; reflexivity|]. split.
  - intros v z. unfold budget_to_int. split.
    + destruct (as_string v) as [s|] eqn:Hv; simpl; [|discriminate].
      destruct (split " " (replace "$" "" s)) as [|number [|word rest]] eqn:Hs;
        simpl; try discriminate.
      { destruct (float_of_str number); discriminate. }
      destruct (float_of_str number) as [x|] eqn:Hx; simpl; [|discriminate].
      destruct (vals_dict !! word) as [k|] eqn:Hk; simpl; [|discriminate].
      destruct (int_of_float (float_mul x (float_of_Z k))) as [z'|] eqn:Hz;
        simpl; [|discriminate].
      intros [= <-]. exists s, number, word, rest, x, k.
      by rewrite <- vals_dict_lookup.
    + intros (s & number & word & rest & x & k & -> & Hs & Hx & Hk & Hz).
      apply vals_dict_lookup in Hk. simpl.
      rewrite Hs. simpl. rewrite Hx. simpl. rewrite Hk. simpl.
      by rewrite Hz.
  - intros v. destruct (budget_to_int_value v) as (r & Hr & [->|[z ->]]); eauto.
Qed.

(** C7. The budget converter does not return the numeric part times
    the magnitude: the product is a product of binary floats and [int()]
    cuts it off instead of rounding it.  8.2 and 4.1 are no binary
    fractions, their products with 1000000 fall short of 8200000 and of
    4100000 by less than a millionth, and the results are one too small.
    On the example of the specification, 12.5 being a binary fraction,
    the result is as expected. *)
Theorem budget_to_int_cuts_the_product_off :
  budget_to_int (PyStr "$8.2 million") = Returns (PyInt 8199999) ∧
  budget_to_int (PyStr "$4.1 million") = Returns (PyInt 4099999) ∧
  budget_to_int (PyStr "$8.2 billion") = Returns (PyInt 8199999999) ∧
  budget_to_int (PyStr "$12.5 million") = Returns (PyInt 12500000).
Proof. repeat split; vm_compute; reflexivity. Qed.

(** The product is a product of floats: 1.001 is no binary fraction, its
    product with 1000 falls short of 1001, and the truncation gives
    1000. *)
Remark budget_product_is_rounded :
  budget_to_int (PyStr "$1.001 thousand") = Returns (PyInt 1000) ∧
  budget_to_int (PyStr "$12.5 million dollars") = Returns (PyInt 12500000) ∧
  budget_to_int (PyStr "12.5million") = Returns PyNone.
Proof. repeat split; vm_compute; reflexivity. Qed.

(* ===================================================================== *)
(** * The detail pages: one outcome per URL *)
(* ===================================================================== *)

Lemma split_without_separator c s : has_char c s = false → split c s = [s].
Proof.
  unfold has_char. induction s as [|a s IH]; simpl; [done|].
  rewrite Ascii.eqb_sym. destruct (Ascii.eqb a c); simpl; [done|].
  intros H. by rewrite (IH H).
Qed.

Section DetailPages.
Variable env : Env.

Lemma process_movie_world movie w :
  (process_movie env movie w).2 = after_request (detail_url_prefix +:+ movie) w.
Proof. reflexivity. Qed.

Lemma process_movie_result movie w :
  (process_movie env movie w).1 =
    (soup ← (get_movie_page env (detail_url_prefix +:+ movie) w).1;
     data_dict ← get_movie_data env soup;
     reference ← py_index (split "=" movie) 1;
     Returns (<["url" := PyStr reference]> data_dict)).
Proof. reflexivity. Qed.

(** The two ways one turn of the loop can go. *)
Lemma movie_step_returns movie data failed w data_dict :
  (process_movie env movie w).1 = Returns data_dict →
  movie_step env movie (data, failed, w) =
    (data ++ [data_dict], failed,
     print ("processed: " +:+ detail_url_prefix +:+ movie)
           (after_request (detail_url_prefix +:+ movie) w)).
Proof.
  pose proof (process_movie_world movie w) as Hw. unfold movie_step.
  destruct (process_movie env movie w) as [result w1]. simpl in Hw |- *.
  by intros ->; subst w1.
Qed.

Lemma movie_step_raises movie data failed w e :
  (process_movie env movie w).1 = Raises e →
  movie_step env movie (data, failed, w) =
    (data, failed ++ [detail_url_prefix +:+ movie],
     print ("processed: " +:+ detail_url_prefix +:+ movie)
           (print ("error processing url: " +:+ detail_url_prefix +:+ movie)
                  (after_request (detail_url_prefix +:+ movie) w))).
Proof.
  pose proof (process_movie_world movie w) as Hw. unfold movie_step.
  destruct (process_movie env movie w) as [result w1]. simpl in Hw |- *.
  by intros ->; subst w1.
Qed.

Lemma movie_outcomes_cons movie rest w :
  movie_outcomes env (movie :: rest) w =
    (process_movie env movie w).1
      :: movie_outcomes env rest
           (after_request (detail_url_prefix +:+ movie) w).
Proof.
  reflexivity.
Qed.

Lemma movie_outcomes_stdout url_list : ∀ w line,
  movie_outcomes env url_list (print line w) = movie_outcomes env url_list w.
Proof.
  induction url_list as [|movie rest IH]; intros w line; [done|].
  rewrite !movie_outcomes_cons. f_equal.
  apply (IH (after_request (detail_url_prefix +:+ movie) w) line).
Qed.

Lemma movies_loop_cons movie rest state :
  movies_loop env (movie :: rest) state =
    movies_loop env rest (movie_step env movie state).
Proof. reflexivity. Qed.

Lemma movies_loop_outcomes url_list : ∀ data failed w,
  ∃ w', movies_loop env url_list (data, failed, w) =
          (data ++ omap record_of (movie_outcomes env url_list w),
           failed ++ omap failure_of
                       (zip url_list (movie_outcomes env url_list w)),
           w')
        ∧ requested w' =
            requested w ++ map (String.append detail_url_prefix) url_list.
Proof.
  induction url_list as [|movie rest IH]; intros data failed w.
  - exists w. simpl. by rewrite !app_nil_r.
  - rewrite movies_loop_cons, movie_outcomes_cons.
    destruct (process_movie env movie w).1 as [d|e] eqn:Hresult.
    + rewrite (movie_step_returns _ _ _ _ _ Hresult).
      edestruct IH as (w' & -> & Hreq). exists w'.
      rewrite Hreq, movie_outcomes_stdout. simpl.
      by rewrite <- !app_assoc.
    + rewrite (movie_step_raises _ _ _ _ _ Hresult).
      edestruct IH as (w' & -> & Hreq). exists w'.
      rewrite Hreq, !movie_outcomes_stdout. simpl.
      by rewrite <- !app_assoc.
Qed.

Lemma movie_outcomes_length url_list : ∀ w,
  length (movie_outcomes env url_list w) = length url_list.
Proof.
  induction url_list as [|movie rest IH]; intros w; simpl; [done|].
  destruct (process_movie env movie w) as [result w1]. simpl.
  by rewrite IH.
Qed.

Lemma outcomes_split url_list : ∀ outcomes,
  length outcomes = length url_list →
  (length (omap record_of outcomes)
   + length (omap failure_of (zip url_list outcomes)))%nat
  = length url_list.
Proof.
  induction url_list as [|movie rest IH]; intros [|result outcomes];
    simpl; try done.
  intros [= Hlen]. specialize (IH _ Hlen).
  unfold failure_of at 1. destruct result as [d|e]; simpl.
  - f_equal. exact IH.
  - rewrite Nat.add_succ_r. f_equal. exact IH.
Qed.

End DetailPages.

(** C8, counterexample.  The list is gone through position by position:
    a URL that is in the list twice is processed twice, and when its
    first request fails and its second one is answered it ends in both
    outputs, with one failure entry and one record.  And the run can be
    cut short: the [print] statements are not inside the [try], so on an
    output that takes ASCII only, a link with a character above 127 has
    its page fetched and its record assembled, the [print] raises, and
    the next URL of the list is never requested. *)
Lemma one_url_ends_in_both_outputs :
  (let '(all_movie_data, failed_urls, _) :=
     get_all_movie_data flaky_detail_site [movie_a; movie_a] fresh_world in
   (omap (λ d : gmap string pyval, d !! "url") all_movie_data, failed_urls))
  = ([PyStr "a.htm"], [detail_url_prefix +:+ movie_a]) ∧
  get_all_movie_data_writing ascii_stdout detail_site
    [movie_amelie; movie_a] fresh_world
  = (Raises UnicodeEncodeError,
     {| requested := [detail_url_prefix +:+ movie_amelie]; stdout := [] |}).
Proof. split; vm_compute; reflexivity. Qed.

Section Writing.
Variable stdout_error : string → option exn.
Variable env : Env.

Lemma movie_step_writing_written movie data failed w :
  lines_can_be_written stdout_error movie →
  movie_step_writing stdout_error env movie (data, failed, w) =
    let '(data', failed', w') := movie_step env movie (data, failed, w) in
    (Returns (data', failed'), w').
Proof.
  intros [Hprocessed Herror].
  unfold movie_step_writing, movie_step, print_or_raise.
  destruct (process_movie env movie w) as [[d|e] w1].
  - by rewrite Hprocessed.
  - by rewrite Herror, Hprocessed.
Qed.

Lemma movies_loop_writing_written url_list : ∀ data failed w,
  Forall (lines_can_be_written stdout_error) url_list →
  movies_loop_writing stdout_error env url_list (data, failed, w) =
    let '(data', failed', w') := movies_loop env url_list (data, failed, w) in
    (Returns (data', failed'), w').
Proof.
  induction url_list as [|movie rest IH]; intros data failed w Hlines.
  - done.
  - apply Forall_cons in Hlines as [Hmovie Hrest].
    rewrite movies_loop_cons. cbn [movies_loop_writing].
    rewrite (movie_step_writing_written movie data failed w Hmovie).
    destruct (movie_step env movie (data, failed, w)) as [[data' failed'] w'].
    by apply IH.
Qed.

Lemma movie_step_writing_raises movie state e w' :
  movie_step_writing stdout_error env movie state = (Raises e, w') →
  ∃ line, stdout_error line = Some e.
Proof.
  destruct state as [[data failed] w].
  unfold movie_step_writing, print_or_raise.
  destruct (process_movie env movie w) as [[d|e'] w1].
  - destruct (stdout_error _) as [e0|] eqn:Hline; simpl; [|discriminate].
    intros [= <- <-]. eauto.
  - destruct (stdout_error ("error processing url: " +:+ _)) as [e0|] eqn:Hline.
    + intros [= <- <-]. eauto.
    + destruct (stdout_error ("processed: " +:+ _)) as [e0|] eqn:Hline';
        simpl; [|discriminate].
      intros [= <- <-]. eauto.
Qed.

Lemma movies_loop_writing_raises url_list : ∀ state e w',
  movies_loop_writing stdout_error env url_list state = (Raises e, w') →
  ∃ line, stdout_error line = Some e.
Proof.
  induction url_list as [|movie rest IH]; intros state e w'; simpl;
    [discriminate|].
  destruct (movie_step_writing stdout_error env movie state)
    as [[[data failed]|e0] w1] eqn:Hstep.
  - apply IH.
  - intros [= <- <-]. by apply movie_step_writing_raises in Hstep.
Qed.

End Writing.

(** C8, as the code has it.  When the lines of the report can be
    written, the second phase goes through the whole list and returns
    its two lists: every URL of the list is requested, in order, and the
    guarded block has one outcome per position of the list; a position
    whose block returned adds one record and no failure entry, a position
    whose block raised adds one failure entry and no record; so the two
    result lists together have as many entries as the input list.  No
    failure of a fetch, of a page or of a link ends the run: an exception
    that leaves the loop is the exception of a [print]. *)
Theorem every_position_gives_one_entry (stdout_error : string → option exn)
    (env : Env) (url_list : list string) (w : world) :
  Forall (lines_can_be_written stdout_error) url_list →
  let '(all_movie_data, failed_urls, w') :=
    get_all_movie_data env url_list w in
  let outcomes := movie_outcomes env url_list w in
  get_all_movie_data_writing stdout_error env url_list w
  = (Returns (all_movie_data, failed_urls), w') ∧
  length outcomes = length url_list ∧
  all_movie_data = omap record_of outcomes ∧
  failed_urls = omap failure_of (zip url_list outcomes) ∧
  (∀ movie result,
     (is_Some (record_of result) ∧ failure_of (movie, result) = None) ∨
     (record_of result = None ∧
      failure_of (movie, result) = Some (detail_url_prefix +:+ movie))) ∧
  (length all_movie_data + length failed_urls)%nat = length url_list ∧
  requested w' =
    requested w ++ map (String.append detail_url_prefix) url_list ∧
  (∀ other_error other_list e w'',
     get_all_movie_data_writing other_error env other_list w
     = (Raises e, w'') →
     ∃ line, other_error line = Some e).
Proof.
  intros Hlines.
  pose proof (movies_loop_writing_written stdout_error env url_list [] [] w
                Hlines) as Hwritten.
  unfold get_all_movie_data_writing, get_all_movie_data in *.
  destruct (movies_loop_outcomes env url_list [] [] w) as (w' & Hloop & Hreq).
  rewrite Hloop in Hwritten |- *. simpl in Hwritten |- *.
  pose proof (movie_outcomes_length env url_list w) as Hlen.
  repeat split; try done.
  - intros movie [d|e]; [left|right]; by eauto.
  - by apply outcomes_split.
  - intros other_error other_list e w''. apply movies_loop_writing_raises.
Qed.

(** C8 at the five links of the two-page partition, on an output that
    takes ASCII only. *)
Lemma every_position_gives_one_entry_witness :
  Forall (lines_can_be_written ascii_stdout) five_movies ∧
  (let '(all_movie_data, failed_urls, _) :=
     get_all_movie_data five_movie_site five_movies fresh_world in
   (length all_movie_data + length failed_urls)%nat) = 5%nat.
Proof.
  assert (Forall (lines_can_be_written ascii_stdout) five_movies) as Hlines.
  { repeat (constructor; [split; vm_compute; reflexivity|]). constructor. }
  split; [done|].
  pose proof (every_position_gives_one_entry ascii_stdout five_movie_site
                five_movies fresh_world Hlines) as Hrun.
  destruct (get_all_movie_data five_movie_site five_movies fresh_world)
    as [[all_movie_data failed_urls] w'].
  destruct Hrun as (_ & _ & _ & _ & _ & Hsum & _). exact Hsum.
Defined.

(** The two-page partition of the specification's example, end to end:
    page 1 of the letter lists five movies and page 2 none; the crawl
    returns the five links after two requests, and the second phase
    turns them into four records and one failure, the link without an
    [=]. *)
Example two_page_partition_end_to_end :
  get_movies_from_letters 2 five_movie_site ["A"] fresh_world =
    Some (Returns five_movies,
          {| requested := [index_url "A" 1; index_url "A" 2];
             stdout := [] |}) ∧
  (let '(all_movie_data, failed_urls, _) :=
     get_all_movie_data five_movie_site five_movies
       {| requested := [index_url "A" 1; index_url "A" 2]; stdout := [] |} in
   (length all_movie_data, failed_urls))
  = (4%nat, [detail_url_prefix +:+ "/movies/?id"]).
Proof. split; vm_compute; reflexivity. Qed.



(* ===================================================================== *)
(** * The document tree: positions, parents, siblings *)
(* ===================================================================== *)

Lemma node_nested_ind (P : node → Prop) :
  (∀ s, P (NavigableString s)) →
  (∀ name attrs contents, Forall P contents → P (Tag name attrs contents)) →
  ∀ n, P n.
Proof.
  intros Hstring Htag. fix IH 1. intros [s|name attrs contents].
  - apply Hstring.
  - apply Htag. induction contents as [|c cs IHcs]; constructor.
    + apply IH.
    + apply IHcs.
Qed.

Lemma descendants_from_tag here name attrs contents :
  descendants_from here (Tag name attrs contents) = contents_from here 0 contents.
Proof.
  simpl. generalize 0%nat. induction contents as [|c cs IH]; intros i; simpl; [done|].
  by rewrite IH.
Qed.

(** Every position below [here] ends in [here]. *)
Lemma descendants_from_suffix n : ∀ here e,
  e ∈ descendants_from here n → ∃ r, r ≠ [] ∧ e.1 = r ++ here.
Proof.
  induction n as [s|name attrs contents IH] using node_nested_ind; intros here e.
  - simpl. by intros ?%elem_of_nil.
  - rewrite descendants_from_tag. generalize 0%nat.
    induction IH as [|c cs Hc _ IHcs]; intros i; simpl.
    + by intros ?%elem_of_nil.
    + rewrite elem_of_cons, elem_of_app. intros [->|[He|He]].
      * by exists [i].
      * apply Hc in He as (r & Hr & ->). exists (r ++ [i]).
        split; [by destruct r|]. by rewrite <- app_assoc.
      * by apply (IHcs (S i)).
Qed.

Lemma contents_from_suffix cs : ∀ here i e,
  e ∈ contents_from here i cs →
  ∃ r k, e.1 = r ++ k :: here ∧ (i ≤ k)%nat.
Proof.
  induction cs as [|c cs IH]; intros here i e; simpl.
  - by intros ?%elem_of_nil.
  - rewrite elem_of_cons, elem_of_app. intros [->|[He|He]].
    + by exists [], i.
    + apply descendants_from_suffix in He as (r & _ & ->). by exists r, i.
    + apply IH in He as (r & k & -> & Hk). exists r, k. split; [done|lia].
Qed.

Lemma suffix_clash (r1 r2 here : path) (j k : nat) :
  r1 ++ k :: here = r2 ++ j :: here → k = j.
Proof.
  intros Heq. apply app_inj_2 in Heq as [_ [= ->]]; done.
Qed.

Lemma elements_after_app_in x (l1 l2 : list element) :
  x ∈ l1.*1 → elements_after x (l1 ++ l2) = elements_after x l1 ++ l2.
Proof.
  induction l1 as [|e l1 IH]; simpl.
  - by intros ?%elem_of_nil.
  - destruct (decide (e.1 = x)); [done|].
    rewrite elem_of_cons. intros [->|Hin]; [done|]. by apply IH.
Qed.

Lemma elements_after_app_out x (l1 l2 : list element) :
  x ∉ l1.*1 → elements_after x (l1 ++ l2) = elements_after x l2.
Proof.
  induction l1 as [|e l1 IH]; simpl; [done|].
  rewrite not_elem_of_cons. intros [Hne Hout].
  destruct (decide (e.1 = x)); [done|]. by apply IH.
Qed.

Lemma filter_out {A} (P : A → Prop) `{∀ x, Decision (P x)} (l : list A) :
  (∀ x, x ∈ l → ¬ P x) → filter P l = [].
Proof.
  induction l as [|a l IH]; intros Hnone; [done|].
  rewrite filter_cons_False by (apply Hnone; by left).
  apply IH. intros x Hx. apply Hnone. by right.
Qed.

(** Below a child nobody is a child of the same parent. *)
Lemma no_child_below (here : path) (i : nat) (c : node) :
  filter (λ e : element, parent_path e.1 = Some here)
         (descendants_from (i :: here) c) = [].
Proof.
  apply filter_out. intros e He Hparent.
  apply descendants_from_suffix in He as (r & Hr & Hpath).
  destruct e as [[|k q] n]; simpl in *; [done|].
  injection Hparent as ->. 
  assert (length (k :: here) = length (r ++ i :: here)) as Hlen by by rewrite Hpath.
  rewrite length_app in Hlen. simpl in Hlen. destruct r; [done|simpl in Hlen; lia].
Qed.

Lemma children_of_contents cs : ∀ here j,
  filter (λ e : element, parent_path e.1 = Some here) (contents_from here j cs)
  = imap (λ k c, ((j + k)%nat :: here, c)) cs.
Proof.
  induction cs as [|c cs IH]; intros here j; simpl; [done|].
  rewrite filter_cons_True by done. rewrite filter_app, no_child_below. simpl.
  rewrite Nat.add_0_r. f_equal. rewrite IH. apply imap_ext. intros k x _. simpl.
  by rewrite Nat.add_succ_r.
Qed.

Lemma child_in_contents cs : ∀ here j i c,
  cs !! i = Some c → ((j + i)%nat :: here, c) ∈ contents_from here j cs.
Proof.
  induction cs as [|c0 cs IH]; intros here j [|i] c; simpl; try done.
  - intros [= ->]. rewrite Nat.add_0_r. by left.
  - intros Hc. right. apply elem_of_app. right.
    rewrite Nat.add_succ_r. by apply (IH here (S j) i).
Qed.

Lemma after_child cs : ∀ here j i c,
  cs !! i = Some c →
  elements_after ((j + i)%nat :: here) (contents_from here j cs) =
    descendants_from ((j + i)%nat :: here) c
    ++ contents_from here (S (j + i)) (drop (S i) cs).
Proof.
  induction cs as [|c0 cs IH]; intros here j [|i] c; simpl; try done.
  - intros [= ->]. rewrite Nat.add_0_r. by rewrite decide_True.
  - intros Hc. rewrite decide_False by (intros [=]; lia).
    rewrite elements_after_app_out.
    + rewrite Nat.add_succ_r. by apply (IH here (S j) i).
    + intros Hin. apply list_elem_of_fmap in Hin as (e & Hpath & He).
      apply descendants_from_suffix in He as (r & Hr & Hr').
      pose proof (eq_trans Hpath Hr') as Heq.
      assert (length ((j + S i)%nat :: here) = length (r ++ j :: here)) as Hlen
        by by rewrite Heq.
      rewrite length_app in Hlen. simpl in Hlen. destruct r; [done|simpl in Hlen; lia].
Qed.

Lemma siblings_in_contents cs0 :
  Forall siblings_known cs0 →
  ∀ here j up cs i c,
    (∃ name attrs, (up, Tag name attrs cs) ∈ contents_from here j cs0) →
    cs !! i = Some c →
    (i :: up, c) ∈ contents_from here j cs0 ∧
    filter (λ e : element, parent_path e.1 = Some up)
           (elements_after (i :: up) (contents_from here j cs0))
    = later_children up i cs.
Proof.
  induction 1 as [|c0 cs0 Hc0 _ IH]; intros here j up cs i c (name & attrs & Hin) Hc;
    simpl in Hin |- *.
  - by apply elem_of_nil in Hin.
  - rewrite elem_of_cons, elem_of_app in Hin.
    assert (tag_at (j :: here) c0 up cs ∨
            (up, Tag name attrs cs) ∈ contents_from here (S j) cs0) as [Hhere|Hrest].
    { destruct Hin as [Heq|[Hin|Hin]].
      - injection Heq as -> <-. left. left. eauto.
      - left. right. eauto.
      - by right. }
    + (* the tag is the child [c0] or lies below it *)
      destruct (Hc0 (j :: here) up cs i c Hhere Hc) as [Hmem Hsibs].
      assert (∃ r, up = r ++ j :: here) as [r ->].
      { destruct Hhere as [[-> _]|(? & ? & Hup)]; [by exists []|].
        apply descendants_from_suffix in Hup as (r & _ & Hup). by exists r. }
      split; [right; apply elem_of_app; by left|].
      rewrite decide_False.
      2:{ simpl. intros Heq. apply (f_equal length) in Heq. simpl in Heq.
          rewrite length_app in Heq. simpl in Heq. lia. }
      rewrite elements_after_app_in.
      2:{ apply list_elem_of_fmap. by exists (i :: r ++ j :: here, c). }
      rewrite filter_app.
      rewrite (filter_out _ (contents_from here (S j) cs0));
        [rewrite app_nil_r; exact Hsibs|].
      intros e He Hparent.
      apply contents_from_suffix in He as (r' & k & Hpath & Hk).
      destruct e as [[|i' q] n]; simpl in *; [done|].
      injection Hparent as ->.
      change (i' :: r ++ j :: here) with ((i' :: r) ++ j :: here) in Hpath.
      apply suffix_clash in Hpath. lia.
    + (* the tag lies in the contents after [c0] *)
      destruct (IH here (S j) up cs i c ltac:(eauto) Hc) as [Hmem Hsibs].
      apply contents_from_suffix in Hrest as (r & k & Hup & Hk). simpl in Hup.
      subst up.
      split; [right; apply elem_of_app; by right|].
      rewrite decide_False.
      2:{ simpl. intros Heq. apply (f_equal length) in Heq. simpl in Heq.
          rewrite length_app in Heq. simpl in Heq. lia. }
      rewrite elements_after_app_out; [done|].
      intros Hin'. apply list_elem_of_fmap in Hin' as (e & Hpath & He).
      apply descendants_from_suffix in He as (r' & _ & Hr').
      pose proof (eq_trans Hpath Hr') as Heq.
      change (i :: r ++ k :: here) with ((i :: r) ++ k :: here) in Heq.
      apply suffix_clash in Heq. lia.
Qed.

Lemma siblings_in_tree n : siblings_known n.
Proof.
  induction n as [s|name0 attrs0 cs0 IH] using node_nested_ind;
    intros here up cs i c Htag Hc.
  - destruct Htag as [[_ (? & ? & [=])]|(? & ? & Hin)].
    simpl in Hin. by apply elem_of_nil in Hin.
  - rewrite descendants_from_tag.
    destruct Htag as [[-> (name & attrs & [= -> -> ->])]|(name & attrs & Hin)].
    + split; [apply (child_in_contents cs here 0 i c Hc)|].
      pose proof (after_child cs here 0 i c Hc) as Hafter.
      simpl in Hafter. rewrite Hafter, filter_app, no_child_below. simpl.
      by rewrite children_of_contents.
    + rewrite descendants_from_tag in Hin.
      apply (siblings_in_contents cs0 IH); eauto.
Qed.

Lemma parent_in_contents cs0 :
  Forall parent_known cs0 →
  ∀ here j x c,
    (x, c) ∈ contents_from here j cs0 →
    (∃ i, x = (j + i)%nat :: here ∧ cs0 !! i = Some c) ∨
    (∃ i up cs name attrs,
       x = i :: up ∧ cs !! i = Some c ∧
       (up, Tag name attrs cs) ∈ contents_from here j cs0).
Proof.
  induction 1 as [|c0 cs0 Hc0 _ IH]; intros here j x c; simpl.
  - by intros ?%elem_of_nil.
  - rewrite elem_of_cons, elem_of_app. intros [Heq|[Hin|Hin]].
    + injection Heq as -> ->. left. exists 0%nat. by rewrite Nat.add_0_r.
    + right. apply Hc0 in Hin as (i & up & cs & -> & Hc & Htag).
      destruct Htag as [[-> (name & attrs & ->)]|(name & attrs & Hup)].
      * exists i, (j :: here), cs, name, attrs. repeat split; [done|]. by left.
      * exists i, up, cs, name, attrs. repeat split; [done|].
        right. apply elem_of_app. by left.
    + apply IH in Hin as [(i & -> & Hc)|(i & up & cs & name & attrs & -> & Hc & Hup)].
      * left. exists (S i). split; [|done]. f_equal. lia.
      * right. exists i, up, cs, name, attrs. repeat split; [done|].
        right. apply elem_of_app. by right.
Qed.

Lemma parent_in_tree n : parent_known n.
Proof.
  induction n as [s|name0 attrs0 cs0 IH] using node_nested_ind; intros here x c.
  - simpl. by intros ?%elem_of_nil.
  - rewrite descendants_from_tag. intros Hin.
    apply (parent_in_contents cs0 IH) in Hin
      as [(i & -> & Hc)|(i & up & cs & name & attrs & -> & Hc & Hup)].
    + exists i, here, cs0. repeat split; [done|]. left. eauto.
    + exists i, up, cs. repeat split; [done|]. right.
      exists name, attrs. by rewrite descendants_from_tag.
Qed.

(** The siblings after an element of a document are the nodes after it
    in the contents of its parent. *)
Lemma next_siblings_are_later_children soup obj :
  obj ∈ descendants soup →
  ∃ i up cs,
    obj.1 = i :: up ∧ cs !! i = Some obj.2 ∧ tag_at [] soup up cs ∧
    next_siblings soup obj = later_children up i cs.
Proof.
  destruct obj as [x c]. intros Hin.
  destruct (parent_in_tree soup [] x c Hin) as (i & up & cs & -> & Hc & Htag).
  exists i, up, cs. repeat split; try done.
  by destruct (siblings_in_tree soup [] up cs i c Htag Hc) as [_ Hsibs].
Qed.

(** When the node right after an element is a tag, that tag is the
    element's next sibling tag. *)
Lemma tag_right_after up i cs name attrs contents :
  cs !! S i = Some (Tag name attrs contents) →
  List.find is_tag (later_children up i cs)
  = Some (S i :: up, Tag name attrs contents).
Proof.
  intros Hnext. unfold later_children.
  rewrite (drop_S _ _ _ Hnext). simpl. by rewrite Nat.add_0_r.
Qed.

(* ===================================================================== *)
(** * The locator *)
(* ===================================================================== *)

Lemma find_first {A : Type} (f : A → bool) (l : list A) x :
  List.find f l = Some x →
  ∃ before after,
    l = before ++ x :: after ∧ f x = true ∧ Forall (λ y, f y = false) before.
Proof.
  induction l as [|a l IH]; simpl; [discriminate|].
  destruct (f a) eqn:Ha.
  - intros [= <-]. exists [], l. by repeat split.
  - intros Hfind. destruct (IH Hfind) as (before & after & -> & Hx & Hbefore).
    exists (a :: before), after. repeat split; [done|]. by constructor.
Qed.

Lemma find_nothing {A : Type} (f : A → bool) (l : list A) :
  Forall (λ y, f y = false) l → List.find f l = None.
Proof.
  induction 1 as [|a l Ha _ IH]; simpl; [done|]. by rewrite Ha.
Qed.

Lemma find_among {A : Type} (f : A → bool) (l : list A) x :
  x ∈ l → f x = true → is_Some (List.find f l).
Proof.
  induction 1 as [x l|x a l _ IH]; simpl; intros Hx.
  - rewrite Hx. by eexists.
  - destruct (f a); [by eexists|]. by apply IH.
Qed.

Section Locator.
Variable env : Env.

Lemma find_string_absent pattern soup :
  no_string_matches env pattern soup →
  find_string (re_search env pattern) soup = None.
Proof.
  intros Hno. apply find_nothing, Forall_forall. intros [p n] Hin.
  unfold string_matching. simpl.
  destruct n as [s|]; [|done].
  rewrite (Hno (p, NavigableString s) s); [|done..].
  apply andb_false_r.
Qed.

Lemma get_movie_value_absent pattern soup is_people :
  no_string_matches env pattern soup →
  get_movie_value env soup pattern is_people = PyNone.
Proof.
  intros Hno. unfold get_movie_value. by rewrite find_string_absent.
Qed.

(** A tag that is a later sibling is also a later element, so the search
    in document order finds a tag whenever the search among the siblings
    does. *)
Lemma sibling_then_following soup obj sibling :
  findNextSibling soup obj = Some sibling →
  is_Some (findNext soup obj).
Proof.
  unfold findNextSibling, findNext, next_siblings. intros Hfind.
  apply find_first in Hfind as (before & after & Heq & Htag & _).
  apply (find_among _ _ sibling); [|done].
  assert (sibling ∈ filter
            (λ e : element, parent_path e.1 = parent_path obj.1)
            (next_elements soup obj)) as Hin.
  { rewrite Heq. apply elem_of_app. right. by left. }
  by apply list_elem_of_filter in Hin as [_ Hin].
Qed.

End Locator.

(** C5, counterexample: two cells with their labels in bold.  The string
    [Genre:] has no sibling, and the node after it in document order is
    the text [ Drama]; the locator passes over it, settles on the next
    tag, which is the second cell, and returns the text of that cell.
    The string [Runtime:] has no sibling either and one node after it,
    the text [ 2 hrs]; no tag follows, and the locator returns [None]. *)
Lemma label_in_bold_reads_the_next_cell :
  find_string (re_search detail_site "Genre:") bold_label_page
  = Some ([0; 0; 0; 0]%nat, NavigableString "Genre:") ∧
  next_siblings bold_label_page ([0; 0; 0; 0]%nat, NavigableString "Genre:")
  = [] ∧
  head (next_elements bold_label_page
          ([0; 0; 0; 0]%nat, NavigableString "Genre:"))
  = Some ([1; 0; 0]%nat, NavigableString " Drama") ∧
  get_movie_value detail_site bold_label_page "Genre:" false
  = PyStr "Runtime: 2 hrs" ∧
  find_string (re_search detail_site "Runtime") bold_label_page
  = Some ([0; 0; 1; 0]%nat, NavigableString "Runtime:") ∧
  next_siblings bold_label_page ([0; 0; 1; 0]%nat, NavigableString "Runtime:")
  = [] ∧
  next_elements bold_label_page ([0; 0; 1; 0]%nat, NavigableString "Runtime:")
  = [([1; 1; 0]%nat, NavigableString " 2 hrs")] ∧
  get_movie_value detail_site bold_label_page "Runtime" false = PyNone.
Proof. repeat split; vm_compute; reflexivity. Qed.

(** C5, as the code has it.  The locator looks for the first string of the document, in
    document order, that the pattern accepts (a string node is never
    empty in a parsed document, and the search passes over empty ones).
    Without such a string the result is [None].  With one, the result is
    taken from the next sibling tag of that string, which is the first tag
    among the nodes after the string in the contents of its parent, and so
    the node right after the string whenever that node is a tag; without a
    sibling tag, from the next tag in document order; and it is [None]
    when no tag follows the string in the document.  From the tag chosen, the list-of-people mode returns
    the tag itself and the scalar mode its text.  On the sample page the
    genre is read from the sibling, the runtime from the following cell,
    and a label that is not there gives [None]. *)
Theorem get_movie_value_locates (env : Env) (soup : node)
    (field_name : string) (is_people : bool) :
  match find_string (re_search env field_name) soup with
  | None =>
      Forall (λ e, string_matching (re_search env field_name) e = false)
             (descendants soup) ∧
      get_movie_value env soup field_name is_people = PyNone
  | Some obj =>
      (∃ before after text,
         descendants soup = before ++ obj :: after ∧
         obj.2 = NavigableString text ∧
         text ≠ "" ∧
         re_search env field_name text = true ∧
         Forall (λ e, string_matching (re_search env field_name) e = false)
                before) ∧
      get_movie_value env soup field_name is_people =
        match findNextSibling soup obj, findNext soup obj with
        | Some sibling, _ => field_content is_people sibling
        | None, Some following => field_content is_people following
        | None, None => PyNone
        end ∧
      (findNext soup obj = None →
       findNextSibling soup obj = None ∧
       Forall (λ e, is_tag e = false) (next_elements soup obj)) ∧
      (∃ i up cs,
         obj.1 = i :: up ∧ cs !! i = Some obj.2 ∧ tag_at [] soup up cs ∧
         findNextSibling soup obj = List.find is_tag (later_children up i cs) ∧
         (∀ name attrs contents,
            cs !! S i = Some (Tag name attrs contents) →
            findNextSibling soup obj
            = Some (S i :: up, Tag name attrs contents)))
  end ∧
  (∀ tag, field_content true tag = PyElement tag ∧
          field_content false tag = PyStr (get_text tag.2)) ∧
  get_movie_value detail_site detail_page "Genre:" false = PyStr "Drama" ∧
  get_movie_value detail_site detail_page "Runtime" false
    = PyStr "2 hrs. 15 min." ∧
  get_movie_value detail_site detail_page "Distributor" false = PyNone.
Proof.
  split; [|split; [done|repeat split; vm_compute; reflexivity]].
  unfold get_movie_value.
  destruct (find_string (re_search env field_name) soup) as [obj|] eqn:Hfind.
  - pose proof Hfind as Hfirst.
    apply find_first in Hfirst as (before & after & Hdoc & Hobj & Hbefore).
    unfold string_matching in Hobj. destruct obj as [p [text|name attrs cs]];
      simpl in Hobj; [|discriminate].
    apply andb_prop in Hobj as [Hnonempty Haccepts].
    assert (text ≠ "") as Htext.
    { intros ->. discriminate. }
    split; [by exists before, after, text|].
    simpl. rewrite Hnonempty. simpl.
    split; [done|]. split.
    { intros Hnone. split.
      - destruct (findNextSibling soup (p, NavigableString text)) eqn:Hsib;
          [|done].
        apply sibling_then_following in Hsib as [following Hsib]. congruence.
      - apply Forall_forall. intros e He. apply list_elem_of_In in He.
        by apply (List.find_none _ _ Hnone). }
    destruct (next_siblings_are_later_children soup (p, NavigableString text))
      as (i & up & cs & Hpath & Hchild & Htag & Hsiblings).
    { unfold descendants in *. rewrite Hdoc. apply elem_of_app. right. by left. }
    exists i, up, cs. unfold findNextSibling. rewrite Hsiblings.
    repeat split; try done.
    intros name' attrs' contents. apply tag_right_after.
  - split; [|done].
    apply Forall_forall. intros e He.
    apply list_elem_of_In in He.
    by apply (List.find_none _ _ Hfind).
Qed.

(* ===================================================================== *)
(** * The record assembler *)
(* ===================================================================== *)

(** A document passes the test below exactly when the pattern accepts
    none of its strings; the test can be run. *)
Lemma no_string_matches_check env pattern soup :
  forallb (λ e : element,
             match e.2 with
             | NavigableString s => negb (re_search env pattern s)
             | Tag _ _ _ => true
             end) (descendants soup) = true →
  no_string_matches env pattern soup.
Proof.
  intros Hall e s He Hs. rewrite List.forallb_forall in Hall.
  apply list_elem_of_In in He. specialize (Hall e He).
  rewrite Hs in Hall. by apply negb_true_iff in Hall.
Qed.

Ltac open_bind H :=
  let H' := fresh "Hstep" in
  apply bind_returns in H; destruct H as (? & H' & H).

Section Assembler.
Variable env : Env.
Variable soup : node.

(** The three fields filled with [str(...)] hold what [str] returned. *)
Lemma get_movie_data_str_fields d :
  get_movie_data env soup = Returns d →
  ∃ rating genre distributor,
    py_str env (get_movie_value env soup "MPAA Rating" false)
      = Returns rating ∧
    py_str env (get_movie_value env soup "Genre:" false) = Returns genre ∧
    py_str env (get_movie_value env soup "Distributor" false)
      = Returns distributor ∧
    d !! "rating" = Some (PyStr rating) ∧
    d !! "genre" = Some (PyStr genre) ∧
    d !! "distributor" = Some (PyStr distributor).
Proof.
  unfold get_movie_data. intros H.
  do 18 open_bind H. injection H as <-.
  eexists _, _, _.
  split; [eassumption|]. split; [eassumption|]. split; [eassumption|].
  repeat split; vm_compute; reflexivity.
Qed.

(** With a title on the page and [str] returning for the three string
    fields, a record is assembled: the converters cannot stop it. *)
Lemma get_movie_data_returns :
  returned (title_text soup) = true →
  returned (py_str env (get_movie_value env soup "MPAA Rating" false))
    = true →
  returned (py_str env (get_movie_value env soup "Genre:" false)) = true →
  returned (py_str env (get_movie_value env soup "Distributor" false))
    = true →
  returned (get_movie_data env soup) = true.
Proof.
  unfold get_movie_data.
  destruct (title_text soup) as [t|]; [intros _|discriminate].
  destruct (py_str env (get_movie_value env soup "MPAA Rating" false));
    [intros _|discriminate].
  destruct (py_str env (get_movie_value env soup "Genre:" false));
    [intros _|discriminate].
  destruct (py_str env (get_movie_value env soup "Distributor" false));
    [intros _|discriminate].
  simpl.
  repeat match goal with
    | |- context [clean_title ?v] =>
        destruct (clean_title_value v) as (? & -> & _); simpl
    | |- context [theaters_to_int ?v] =>
        destruct (theaters_to_int_value v) as (? & -> & _); simpl
    | |- context [budget_to_int ?v] =>
        destruct (budget_to_int_value v) as (? & -> & _); simpl
    | |- context [money_to_int ?v] =>
        destruct (money_to_int_value v) as (? & -> & _); simpl
    | |- context [noms_from_oscars env ?v] =>
        destruct (noms_from_oscars_value env v) as (? & -> & _); simpl
    | |- context [wins_from_oscars env ?v] =>
        destruct (wins_from_oscars_value env v) as (? & -> & _); simpl
    | |- context [to_date env ?v] =>
        destruct (to_date_value env v) as (? & -> & _); simpl
    | |- context [runtime_to_minutes ?v] =>
        destruct (runtime_to_minutes_value v) as (? & -> & _); simpl
    | |- context [people_to_list ?v] =>
        destruct (people_to_list_value v) as (? & -> & _); simpl
    end.
  reflexivity.
Qed.

End Assembler.

(** C9. When no string of the document is accepted by the pattern of the
    rating, of the genre or of the distributor, the locator returns [None]
    and the assembled record holds [str(None)] for that field: the string
    ["None"], which is a string like any other, not the absent value.  A
    page with a title and none of the three labels does get its record. *)
Theorem missing_label_reads_None (env : Env) (soup : node) :
  (∀ d, get_movie_data env soup = Returns d →
     (no_string_matches env "MPAA Rating" soup →
      d !! "rating" = Some (PyStr "None")) ∧
     (no_string_matches env "Genre:" soup →
      d !! "genre" = Some (PyStr "None")) ∧
     (no_string_matches env "Distributor" soup →
      d !! "distributor" = Some (PyStr "None"))) ∧
  (returned (title_text soup) = true →
   no_string_matches env "MPAA Rating" soup →
   no_string_matches env "Genre:" soup →
   no_string_matches env "Distributor" soup →
   returned (get_movie_data env soup) = true) ∧
  py_str env PyNone = Returns "None" ∧
  PyStr "None" ≠ PyNone.
Proof.
  split; [|split; [|done]].
  - intros d Hd.
    destruct (get_movie_data_str_fields env soup d Hd)
      as (rating & genre & distributor & Hr & Hg & Hd' & -> & -> & ->).
    repeat split; intros Hno;
      rewrite (get_movie_value_absent env _ soup false Hno) in *;
      simpl in *; congruence.
  - intros Htitle Hr Hg Hd.
    apply get_movie_data_returns; [done|..];
      by rewrite get_movie_value_absent.
Qed.

(** C9 at the sample page, which has a title and a genre but neither a
    rating nor a distributor. *)
Lemma missing_label_reads_None_witness :
  returned (get_movie_data detail_site detail_page) = true ∧
  no_string_matches detail_site "MPAA Rating" detail_page ∧
  (λ d : gmap string pyval, d !! "rating")
    <$> get_movie_data detail_site detail_page
    = Returns (Some (PyStr "None")) ∧
  (λ d : gmap string pyval, d !! "genre")
    <$> get_movie_data detail_site detail_page
    = Returns (Some (PyStr "Drama")).
Proof.
  assert (returned (get_movie_data detail_site detail_page) = true)
    as Hassembled by (vm_compute; reflexivity).
  assert (no_string_matches detail_site "MPAA Rating" detail_page) as Hno
    by (apply no_string_matches_check; vm_compute; reflexivity).
  split; [exact Hassembled|]. split; [exact Hno|].
  split; [|vm_compute; reflexivity].
  destruct (get_movie_data detail_site detail_page) as [d|e] eqn:Hd;
    [|discriminate Hassembled].
  simpl. f_equal.
  destruct (missing_label_reads_None detail_site detail_page) as (Hfields & _).
  destruct (Hfields d Hd) as (Hrating & _).
  exact (Hrating Hno).
Defined.

(* ===================================================================== *)
(** * The crawl: one letter *)
(* ===================================================================== *)

Section Crawl.
Variable env : Env.

(** One turn of the [while True] loop. *)
Lemma pages_loop_unfold fuel letter page acc w :
  pages_loop (S fuel) env letter page acc w =
    match page_urls env letter page (requested w) with
    | Raises e => Some (Raises e, after_request (index_url letter page) w)
    | Returns [] =>
        Some (Returns acc, after_request (index_url letter page) w)
    | Returns movie_urls =>
        pages_loop fuel env letter (page + 1) (acc ++ movie_urls)
                   (after_request (index_url letter page) w)
    end.
Proof.
  unfold page_urls. simpl.
  destruct (_ ≫= get_movies_on_page) as [[|u us]|e]; simpl; try done.
  by rewrite app_nil_r.
Qed.

Lemma page_requests_step letter page k :
  page_requests letter page (S k) =
    index_url letter page :: page_requests letter (page + 1) k.
Proof.
  unfold page_requests. simpl. by rewrite Nat.add_1_r.
Qed.

Lemma served_app urls1 : ∀ history urls2,
  served env history (urls1 ++ urls2) =
    served env history urls1 ++ served env (history ++ urls1) urls2.
Proof.
  induction urls1 as [|url urls1 IH]; intros history urls2; simpl.
  - by rewrite app_nil_r.
  - rewrite IH, <- !app_assoc. by simpl.
Qed.

(** More fuel does not change a run that ended. *)
Lemma pages_loop_mono fuel : ∀ fuel' letter page acc w result,
  pages_loop fuel env letter page acc w = Some result →
  (fuel ≤ fuel')%nat →
  pages_loop fuel' env letter page acc w = Some result.
Proof.
  induction fuel as [|fuel IH]; intros fuel' letter page acc w result;
    [discriminate|].
  intros Hrun Hle. destruct fuel' as [|fuel']; [lia|].
  rewrite pages_loop_unfold in Hrun |- *.
  destruct (page_urls env letter page (requested w)) as [[|u us]|e];
    try done.
  apply IH; [done|lia].
Qed.

(** The run of one letter, when its first [k] pages have links and the
    next one has none or fails: [k + 1] pages are requested, no more and
    no fewer; the links of the [k] pages are added to the list if the
    last page returned, and the exception comes out if it raised. *)
Lemma pages_loop_run k : ∀ fuel letter page acc w,
  (k < fuel)%nat →
  (∀ j, (j < k)%nat →
        has_links (page_urls env letter (page + j)
                     (requested w ++ page_requests letter page j)) = true) →
  has_links (page_urls env letter (page + k)
               (requested w ++ page_requests letter page k)) = false →
  pages_loop fuel env letter page acc w =
    Some (match page_urls env letter (page + k)
                  (requested w ++ page_requests letter page k) with
          | Returns _ =>
              Returns (acc ++ served env (requested w)
                                (page_requests letter page k))
          | Raises e => Raises e
          end,
          {| requested := requested w ++ page_requests letter page (S k);
             stdout := stdout w |}).
Proof.
  induction k as [|k IH]; intros fuel letter page acc w Hfuel Hlinks Hlast;
    (destruct fuel as [|fuel]; [lia|]); rewrite pages_loop_unfold.
  - unfold page_requests in *. simpl in *.
    rewrite Nat.add_0_r, app_nil_r in *.
    destruct (page_urls env letter page (requested w)) as [[|u us]|e];
      try done.
    by rewrite app_nil_r.
  - pose proof (Hlinks 0%nat ltac:(lia)) as Hfirst.
    unfold page_requests in Hfirst. simpl in Hfirst.
    rewrite Nat.add_0_r, app_nil_r in Hfirst.
    destruct (page_urls env letter page (requested w)) as [[|u us]|e] eqn:Hp;
      try done.
    rewrite (IH fuel letter (page + 1)%nat); [|lia|..].
    + simpl requested. simpl stdout.
      replace (page + 1 + k)%nat with (page + S k)%nat by lia.
      rewrite (page_requests_step letter page k), <- !app_assoc. simpl.
      rewrite (page_requests_step letter page (S k)).
      fold (page_urls env letter page (requested w)). by rewrite Hp.
    + intros j Hj. simpl requested.
      replace (page + 1 + j)%nat with (page + S j)%nat by lia.
      rewrite <- app_assoc. simpl.
      rewrite <- (page_requests_step letter page j).
      apply Hlinks. lia.
    + simpl requested.
      replace (page + 1 + k)%nat with (page + S k)%nat by lia.
      rewrite <- app_assoc. simpl.
      by rewrite <- (page_requests_step letter page k).
Qed.

(** A letter whose pages stop having links at some point is crawled in
    finitely many turns. *)
Lemma pages_loop_terminates k : ∀ letter page acc w,
  has_links (page_urls env letter (page + k)
               (requested w ++ page_requests letter page k)) = false →
  ∃ fuel result, pages_loop fuel env letter page acc w = Some result.
Proof.
  induction k as [|k IH]; intros letter page acc w Hlast.
  - exists 1%nat. rewrite pages_loop_unfold.
    unfold page_requests in Hlast. simpl in Hlast.
    rewrite Nat.add_0_r, app_nil_r in Hlast.
    destruct (page_urls env letter page (requested w)) as [[|u us]|e];
      by eauto.
  - destruct (page_urls env letter page (requested w)) as [[|u us]|e] eqn:Hp.
    + exists 1%nat. rewrite pages_loop_unfold, Hp. eauto.
    + destruct (IH letter (page + 1)%nat (acc ++ u :: us)
                  (after_request (index_url letter page) w))
        as (fuel & result & Hrun).
      { simpl requested.
        replace (page + 1 + k)%nat with (page + S k)%nat by lia.
        rewrite <- app_assoc. simpl.
        by rewrite <- (page_requests_step letter page k). }
      exists (S fuel), result. by rewrite pages_loop_unfold, Hp.
    + exists 1%nat. rewrite pages_loop_unfold, Hp. eauto.
Qed.

(** What a run of one letter that returned has requested and
    collected. *)
Lemma pages_loop_served fuel : ∀ letter page acc w urls w',
  pages_loop fuel env letter page acc w = Some (Returns urls, w') →
  ∃ reqs, requested w' = requested w ++ reqs
          ∧ stdout w' = stdout w
          ∧ urls = acc ++ served env (requested w) reqs.
Proof.
  induction fuel as [|fuel IH]; intros letter page acc w urls w';
    [discriminate|].
  rewrite pages_loop_unfold.
  destruct (page_urls env letter page (requested w)) as [[|u us]|e] eqn:Hp;
    [| |discriminate].
  - intros [= <- <-]. exists [index_url letter page]. simpl.
    fold (page_urls env letter page (requested w)). rewrite Hp.
    by rewrite !app_nil_r.
  - intros Hrun. apply IH in Hrun as (reqs & Hreq & Hout & ->).
    exists (index_url letter page :: reqs). simpl in *.
    fold (page_urls env letter page (requested w)). rewrite Hp.
    rewrite Hreq, Hout, <- !app_assoc. by simpl.
Qed.

(** A run of one letter that raised stopped at the request that
    failed. *)
Lemma pages_loop_raised fuel : ∀ letter page acc w e w',
  pages_loop fuel env letter page acc w = Some (Raises e, w') →
  ∃ history last_page,
    requested w' = history ++ [index_url letter last_page]
    ∧ stdout w' = stdout w
    ∧ page_urls env letter last_page history = Raises e.
Proof.
  induction fuel as [|fuel IH]; intros letter page acc w e w';
    [discriminate|].
  rewrite pages_loop_unfold.
  destruct (page_urls env letter page (requested w)) as [[|u us]|e'] eqn:Hp.
  - discriminate.
  - intros Hrun. apply IH in Hrun as (history & last_page & Hreq & Hout & He).
    by exists history, last_page.
  - intros [= <- <-]. by exists (requested w), page.
Qed.

End Crawl.

(* ===================================================================== *)
(** * The crawl: all the letters *)
(* ===================================================================== *)

Section Letters.
Variable env : Env.

Lemma letters_loop_mono fuel fuel' letter_list : ∀ acc w result,
  letters_loop fuel env letter_list acc w = Some result →
  (fuel ≤ fuel')%nat →
  letters_loop fuel' env letter_list acc w = Some result.
Proof.
  induction letter_list as [|letter rest IH]; intros acc w result; simpl;
    [done|].
  destruct (pages_loop fuel env letter 1 acc w) as [[r w1]|] eqn:Hrun;
    [|discriminate].
  intros Hrest Hle. rewrite (pages_loop_mono env _ _ _ _ _ _ _ Hrun Hle).
  destruct r; [by apply IH|done].
Qed.

(** The letters are crawled one after the other: a list in two parts is
    the first part, then, if that returned, the second. *)
Lemma letters_loop_app fuel done : ∀ rest acc w,
  letters_loop fuel env (done ++ rest) acc w =
    match letters_loop fuel env done acc w with
    | Some (Returns acc', w') => letters_loop fuel env rest acc' w'
    | stopped => stopped
    end.
Proof.
  induction done as [|letter done IH]; intros rest acc w; simpl.
  - by destruct (letters_loop fuel env rest acc w) as [[[]]|].
  - destruct (pages_loop fuel env letter 1 acc w) as [[[acc'|e] w1]|];
      [apply IH|done..].
Qed.

Lemma letters_loop_terminates letter_list : ∀ acc w,
  (∀ letter, letter ∈ letter_list → ∀ history, ∃ k,
      has_links (page_urls env letter (1 + k)
                   (history ++ page_requests letter 1 k)) = false) →
  ∃ fuel result, ∀ fuel', (fuel ≤ fuel')%nat →
    letters_loop fuel' env letter_list acc w = Some result.
Proof.
  induction letter_list as [|letter rest IH]; intros acc w Hends.
  - exists 0%nat, (Returns acc, w). done.
  - destruct (Hends letter ltac:(by left) (requested w)) as [k Hk].
    destruct (pages_loop_terminates env k letter 1%nat acc w Hk)
      as (fuel1 & [r w1] & Hrun).
    destruct r as [acc'|e].
    + destruct (IH acc' w1) as (fuel2 & result & Hrest).
      { intros l Hl. apply Hends. by right. }
      exists (fuel1 `max` fuel2)%nat, result. intros fuel' Hle. simpl.
      rewrite (pages_loop_mono env _ fuel' _ _ _ _ _ Hrun) by lia.
      apply Hrest. lia.
    + exists fuel1, (Raises e, w1). intros fuel' Hle. simpl.
      by rewrite (pages_loop_mono env _ fuel' _ _ _ _ _ Hrun) by lia.
Qed.

Lemma letters_loop_served fuel letter_list : ∀ acc w urls w',
  letters_loop fuel env letter_list acc w = Some (Returns urls, w') →
  ∃ reqs, requested w' = requested w ++ reqs
          ∧ stdout w' = stdout w
          ∧ urls = acc ++ served env (requested w) reqs.
Proof.
  induction letter_list as [|letter rest IH]; intros acc w urls w'; simpl.
  - intros [= <- <-]. exists []. simpl. by rewrite !app_nil_r.
  - destruct (pages_loop fuel env letter 1 acc w) as [[[acc'|e] w1]|] eqn:Hrun;
      [|discriminate..].
    intros Hrest.
    apply pages_loop_served in Hrun as (reqs1 & Hreq1 & Hout1 & ->).
    apply IH in Hrest as (reqs2 & Hreq2 & Hout2 & ->).
    exists (reqs1 ++ reqs2).
    rewrite Hreq2, Hreq1, Hout2, Hout1, served_app, <- !app_assoc. done.
Qed.

Lemma letters_loop_raised fuel letter_list : ∀ acc w e w',
  letters_loop fuel env letter_list acc w = Some (Raises e, w') →
  ∃ history letter page,
    letter ∈ letter_list
    ∧ requested w' = history ++ [index_url letter page]
    ∧ page_urls env letter page history = Raises e.
Proof.
  induction letter_list as [|letter rest IH]; intros acc w e w'; simpl;
    [discriminate|].
  destruct (pages_loop fuel env letter 1 acc w) as [[[acc'|e'] w1]|] eqn:Hrun;
    [| |discriminate].
  - intros Hrest.
    apply IH in Hrest as (history & l & page & Hl & Hreq & He).
    exists history, l, page. split; [by right|done].
  - intros [= <- <-].
    apply pages_loop_raised in Hrun as (history & page & Hreq & _ & He).
    exists history, letter, page. split; [by left|done].
Qed.

End Letters.

Lemma endless_letter fuel : ∀ page acc w,
  pages_loop fuel endless_site "A" page acc w = None.
Proof.
  induction fuel as [|fuel IH]; intros page acc w; [done|].
  rewrite pages_loop_unfold.
  replace (page_urls endless_site "A" page (requested w))
    with (@Returns (list string) [movie_a]) by (vm_compute; reflexivity).
  apply IH.
Qed.

(** C1, counterexample: on a site whose index pages always list a movie
    the crawl of the single letter A is still going after any number of
    pages. *)
Lemma endless_site_never_ends :
  (∀ page history,
     page_urls endless_site "A" page history = Returns [movie_a]) ∧
  (∀ fuel,
     get_movies_from_letters fuel endless_site ["A"] fresh_world = None).
Proof.
  split; [intros page history; vm_compute; reflexivity|].
  intros fuel. unfold get_movies_from_letters. simpl.
  by rewrite endless_letter.
Qed.

(** C1, as the code has it.  If every letter of the list comes to a page
    without links, or to a page that fails, whatever was requested
    before, then the crawl ends: from some amount of fuel on, the result
    is there and stays the same.  Within a letter the loop stops at the
    first page without links and nowhere else short of an exception:
    after [k] pages with links and one without, it has requested exactly
    those [k + 1] pages and added the links of the [k] pages; a page with
    links always leads to the request of the next page.  A letter whose
    first page has no links adds nothing, is no error, and the crawl goes
    on with the next letter. *)
Theorem crawl_ends_when_pages_run_out (env : Env)
    (letter_list : list string) (w : world) :
  (∀ letter, letter ∈ letter_list → ∀ history, ∃ k,
      has_links (page_urls env letter (1 + k)
                   (history ++ page_requests letter 1 k)) = false) →
  (∃ fuel result, ∀ fuel', (fuel ≤ fuel')%nat →
      get_movies_from_letters fuel' env letter_list w = Some result) ∧
  (∀ fuel letter page acc w0 k,
     (k < fuel)%nat →
     (∀ j, (j < k)%nat →
           has_links (page_urls env letter (page + j)
                        (requested w0 ++ page_requests letter page j))
           = true) →
     page_urls env letter (page + k)
               (requested w0 ++ page_requests letter page k) = Returns [] →
     pages_loop fuel env letter page acc w0 =
       Some (Returns (acc ++ served env (requested w0)
                               (page_requests letter page k)),
             {| requested := requested w0 ++ page_requests letter page (S k);
                stdout := stdout w0 |})) ∧
  (∀ fuel letter page acc w0 u us,
     page_urls env letter page (requested w0) = Returns (u :: us) →
     pages_loop (S fuel) env letter page acc w0 =
       pages_loop fuel env letter (page + 1) (acc ++ u :: us)
                  (after_request (index_url letter page) w0)) ∧
  (∀ fuel letter rest acc w0,
     page_urls env letter 1 (requested w0) = Returns [] →
     letters_loop (S fuel) env (letter :: rest) acc w0 =
       letters_loop (S fuel) env rest acc
                    (after_request (index_url letter 1) w0)).
Proof.
  intros Hends. split; [|split; [|split]].
  - by apply letters_loop_terminates.
  - intros fuel letter page acc w0 k Hfuel Hlinks Hlast.
    rewrite (pages_loop_run env k fuel letter page acc w0 Hfuel Hlinks);
      by rewrite Hlast.
  - intros fuel letter page acc w0 u us Hp.
    by rewrite pages_loop_unfold, Hp.
  - intros fuel letter rest acc w0 Hp.
    cbn [letters_loop]. by rewrite pages_loop_unfold, Hp.
Qed.

(** C1 at a sample: letters A and B, each with one page of links. *)
Lemma crawl_ends_when_pages_run_out_witness :
  ∃ fuel result, ∀ fuel', (fuel ≤ fuel')%nat →
    get_movies_from_letters fuel' one_page_site ["A"; "B"] fresh_world
    = Some result.
Proof.
  apply (crawl_ends_when_pages_run_out one_page_site ["A"; "B"] fresh_world).
  intros letter Hin history. exists 1%nat.
  apply elem_of_cons in Hin as [->|Hin];
    [|apply elem_of_cons in Hin as [->|Hin]; [|by apply elem_of_nil in Hin]];
    vm_compute; reflexivity.
Defined.

(** C2, counterexample: the same link is listed under A and under B, and
    the list the crawl returns holds it twice. *)
Lemma shared_link_is_kept_twice :
  get_movies_from_letters 2 one_page_site ["A"; "B"] fresh_world =
    Some (Returns [movie_a; movie_a],
          {| requested := [index_url "A" 1; index_url "A" 2;
                           index_url "B" 1; index_url "B" 2];
             stdout := [] |}) ∧
  length (List.filter (String.eqb movie_a) [movie_a; movie_a]) = 2%nat.
Proof. split; vm_compute; reflexivity. Qed.

(** C2, as the code has it.  The crawl gathers the links of all letters
    in one list, which is not a set: when it returns, the list is the
    links of the pages it requested, page after page in the order of the
    requests, every occurrence kept and every link as the page spells it.
    More fuel gives the same list. *)
Theorem crawl_keeps_every_occurrence (env : Env) (fuel : nat)
    (letter_list : list string) (w : world) (urls : list string)
    (w' : world) :
  get_movies_from_letters fuel env letter_list w = Some (Returns urls, w') →
  (∃ reqs, requested w' = requested w ++ reqs
           ∧ urls = served env (requested w) reqs) ∧
  (∀ fuel', (fuel ≤ fuel')%nat →
     get_movies_from_letters fuel' env letter_list w
     = Some (Returns urls, w')).
Proof.
  unfold get_movies_from_letters. intros Hrun. split.
  - apply letters_loop_served in Hrun as (reqs & Hreq & _ & ->).
    by exists reqs.
  - intros fuel' Hle. by apply (letters_loop_mono env fuel).
Qed.

(** C2 at the sample of the counterexample. *)
Lemma crawl_keeps_every_occurrence_witness :
  ∃ reqs,
    [movie_a; movie_a] = served one_page_site [] reqs ∧
    reqs = [index_url "A" 1; index_url "A" 2;
            index_url "B" 1; index_url "B" 2].
Proof.
  destruct (crawl_keeps_every_occurrence one_page_site 2 ["A"; "B"]
              fresh_world [movie_a; movie_a]
              {| requested := [index_url "A" 1; index_url "A" 2;
                               index_url "B" 1; index_url "B" 2];
                 stdout := [] |}
              ltac:(vm_compute; reflexivity))
    as ((reqs & Hreq & Hurls) & _).
  exists reqs. split; [exact Hurls|]. exact (eq_sym Hreq).
Defined.

(** C4, counterexample: the first request fails and a second one would
    be answered, but the crawl makes no second request: it ends with the
    exception of the first. *)
Lemma failed_request_is_not_repeated :
  get_movies_from_letters 5 flaky_site ["A"; "B"] fresh_world =
    Some (Raises (LibraryError "ConnectionError"),
          {| requested := [index_url "A" 1]; stdout := [] |}) ∧
  page_urls flaky_site "A" 1 [index_url "A" 1] = Returns [movie_a].
Proof. split; vm_compute; reflexivity. Qed.

(** C4, as the code has it.  A page that cannot be fetched or read is
    not taken for a page without links, and it is not tried again: the
    exception leaves the crawl.  When the letters before have been
    crawled, [k] pages of a letter had links and the next page raises,
    the whole crawl ends with that exception, the failing request being
    the last one made; no list is returned and the letters after it are
    not visited.  Had the page been without links, the crawl would have
    gone on with those letters.  And a crawl that ends with an exception
    always ends at the request that raised it. *)
Theorem failed_page_ends_crawl (env : Env) (fuel : nat)
    (done_letters : list string) (letter : string) (rest : list string)
    (k : nat) (acc : list string) (w w1 : world) :
  letters_loop fuel env done_letters [] w = Some (Returns acc, w1) →
  (k < fuel)%nat →
  (∀ j, (j < k)%nat →
        has_links (page_urls env letter (1 + j)
                     (requested w1 ++ page_requests letter 1 j)) = true) →
  (∀ e,
     page_urls env letter (1 + k)
               (requested w1 ++ page_requests letter 1 k) = Raises e →
     get_movies_from_letters fuel env (done_letters ++ letter :: rest) w =
       Some (Raises e,
             {| requested := requested w1 ++ page_requests letter 1 (S k);
                stdout := stdout w1 |})) ∧
  (page_urls env letter (1 + k)
             (requested w1 ++ page_requests letter 1 k) = Returns [] →
   get_movies_from_letters fuel env (done_letters ++ letter :: rest) w =
     letters_loop fuel env rest
       (acc ++ served env (requested w1) (page_requests letter 1 k))
       {| requested := requested w1 ++ page_requests letter 1 (S k);
          stdout := stdout w1 |}) ∧
  (∀ letters e w',
     get_movies_from_letters fuel env letters w = Some (Raises e, w') →
     ∃ history failing page,
       failing ∈ letters
       ∧ requested w' = history ++ [index_url failing page]
       ∧ page_urls env failing page history = Raises e).
Proof.
  intros Hdone Hfuel Hlinks. unfold get_movies_from_letters.
  rewrite letters_loop_app, Hdone. cbn [letters_loop].
  split; [|split].
  - intros e He.
    rewrite (pages_loop_run env k fuel letter 1%nat acc w1 Hfuel Hlinks);
      by rewrite He.
  - intros Hempty.
    rewrite (pages_loop_run env k fuel letter 1%nat acc w1 Hfuel Hlinks);
      by rewrite Hempty.
  - intros letters e w'. apply letters_loop_raised.
Qed.

(** C4 at the sample of the counterexample. *)
Lemma failed_page_ends_crawl_witness :
  get_movies_from_letters 5 flaky_site ["A"; "B"] fresh_world =
    Some (Raises (LibraryError "ConnectionError"),
          {| requested := [] ++ page_requests "A" 1 1; stdout := [] |}).
Proof.
  destruct (failed_page_ends_crawl flaky_site 5 [] "A" ["B"] 0 []
              fresh_world fresh_world eq_refl ltac:(lia)
              ltac:(intros j Hj; lia))
    as (Hraises & _).
  apply (Hraises (LibraryError "ConnectionError")).
  vm_compute; reflexivity.
Defined.

(* ===================================================================== *)
(** * Strings: append, search, replace, split and strip *)
(* ===================================================================== *)

(* ===================================================================== *)
(** * Strings: facts about the methods *)
(* ===================================================================== *)

Lemma append_cons c (s t : string) : String c s +:+ t = String c (s +:+ t).
Proof. reflexivity. Qed.

Lemma append_empty_l (t : string) : "" +:+ t = t.
Proof. reflexivity. Qed.

Ltac push_append := rewrite ?append_cons, ?append_empty_l.

Lemma str_forallb_app p s t :
  str_forallb p (s +:+ t) = str_forallb p s && str_forallb p t.
Proof.
  induction s as [|c s IH]; push_append; simpl; [done|].
  by rewrite IH, andb_assoc.
Qed.

Lemma str_existsb_app p s t :
  str_existsb p (s +:+ t) = str_existsb p s || str_existsb p t.
Proof.
  induction s as [|c s IH]; push_append; simpl; [done|].
  by rewrite IH, orb_assoc.
Qed.

Lemma has_char_app c s t : has_char c (s +:+ t) = has_char c s || has_char c t.
Proof. apply str_existsb_app. Qed.

(** A string without a character that a predicate holds of: nothing of
    it is dropped, replaced or cut. *)
Lemma str_existsb_forallb p s :
  str_existsb p s = negb (str_forallb (λ c, negb (p c)) s).
Proof.
  induction s as [|c s IH]; simpl; [done|].
  rewrite IH. by destruct (p c).
Qed.

Lemma str_forallb_impl (p q : ascii → bool) s :
  (∀ c, p c = true → q c = true) →
  str_forallb p s = true → str_forallb q s = true.
Proof.
  intros Hpq. induction s as [|c s IH]; simpl; [done|].
  intros [Hc Hs]%andb_prop. by rewrite (Hpq c Hc), IH.
Qed.

Lemma append_assoc' (s t u : string) : (s +:+ t) +:+ u = s +:+ t +:+ u.
Proof. induction s as [|c s IH]; push_append; [done|]. by rewrite IH. Qed.

Lemma append_empty_r (s : string) : s +:+ "" = s.
Proof. induction s as [|c s IH]; push_append; [done|]. by rewrite IH. Qed.

Lemma replace_clean c new s :
  has_char c s = false → replace c new s = s.
Proof.
  unfold has_char. induction s as [|a s IH]; simpl; [done|].
  rewrite Ascii.eqb_sym. destruct (Ascii.eqb a c); simpl; [done|].
  intros H. by rewrite IH.
Qed.

Lemma replace_app c new s t :
  replace c new (s +:+ t) = replace c new s +:+ replace c new t.
Proof.
  induction s as [|a s IH]; push_append; simpl; [done|].
  destruct (Ascii.eqb a c); rewrite IH; [by rewrite append_assoc'|done].
Qed.

Lemma replace_gone c s : has_char c (replace c "" s) = false.
Proof.
  unfold has_char. induction s as [|a s IH]; simpl; [done|].
  destruct (Ascii.eqb a c) eqn:Ha; simpl; [done|].
  by rewrite Ascii.eqb_sym, Ha.
Qed.

Lemma split_nonempty c s : split c s ≠ [].
Proof.
  destruct s as [|a s]; simpl; [done|].
  destruct (Ascii.eqb a c); [done|]. by destruct (split c s).
Qed.

(** Cutting at a separator that the first part does not hold. *)
Lemma split_app_sep c s t :
  has_char c s = false → split c (s +:+ String c t) = s :: split c t.
Proof.
  unfold has_char. induction s as [|a s IH]; push_append; simpl.
  - by rewrite Ascii.eqb_refl.
  - rewrite Ascii.eqb_sym. destruct (Ascii.eqb a c); simpl; [done|].
    intros H. by rewrite IH.
Qed.

Lemma lstrip_keep drop c s : drop c = false → lstrip drop (String c s) = String c s.
Proof. intros H. simpl. by rewrite H. Qed.

Lemma rstrip_clean drop s :
  str_existsb drop s = false → rstrip drop s = s.
Proof.
  induction s as [|c s IH]; simpl; [done|].
  intros [Hc Hs]%orb_false_elim. rewrite (IH Hs), Hc. by destruct s.
Qed.

(** The right strip looks at the end of the string only. *)
Lemma rstrip_app_keep drop s c t :
  drop c = false → str_existsb drop t = false →
  rstrip drop (s +:+ String c t) = s +:+ String c t.
Proof.
  intros Hc Ht. induction s as [|a s IH]; push_append; simpl.
  - rewrite (rstrip_clean drop t Ht), Hc. by destruct t.
  - rewrite IH. by destruct s.
Qed.

Lemma rstrip_nonempty drop s c :
  drop c = false → rstrip drop (s +:+ String c "") = s +:+ String c "".
Proof. intros Hc. by apply rstrip_app_keep. Qed.

Lemma lower_app s t : lower (s +:+ t) = lower s +:+ lower t.
Proof.
  unfold lower. induction s as [|c s IH]; push_append; simpl; [done|].
  by rewrite IH.
Qed.

(* ===================================================================== *)
(** * Strings of digits *)
(* ===================================================================== *)

Lemma digit_char c :
  is_digit c = true →
  isspace_bytes c = false ∧ isspace_unicode c = false ∧ lower_char c = c ∧
  (ord c <? 128)%nat = true ∧
  Forall (λ other, Ascii.eqb c other = false ∧ Ascii.eqb other c = false)
         [","; "$"; "."; " "; "-"; "+"; "("; "="; "*"]%char.
Proof.
  destruct c as [[] [] [] [] [] [] [] []]; try discriminate;
    intros _; vm_compute; repeat constructor.
Qed.

Lemma digits_forall (p : ascii → bool) d :
  (∀ c, is_digit c = true → p c = true) →
  isdigit d = true → str_forallb p d = true.
Proof.
  intros Hp Hd. apply (str_forallb_impl is_digit); [done|].
  by destruct d.
Qed.

Lemma digits_without (p : ascii → bool) d :
  (∀ c, is_digit c = true → p c = false) →
  isdigit d = true → str_existsb p d = false.
Proof.
  intros Hp Hd. rewrite str_existsb_forallb.
  rewrite (digits_forall (λ c, negb (p c)) d); [done| |done].
  intros c Hc. by rewrite (Hp c Hc).
Qed.

Lemma digits_no_char other d :
  is_digit other = false → isdigit d = true → has_char other d = false.
Proof.
  intros Hother. apply digits_without. intros c Hc.
  destruct (Ascii.eqb other c) eqn:Heq; [|done].
  apply Ascii.eqb_eq in Heq. congruence.
Qed.

Lemma digits_lower d : isdigit d = true → lower d = d.
Proof.
  intros Hd. assert (str_forallb is_digit d = true) as Hall by by destruct d.
  clear Hd. unfold lower. induction d as [|c d IH]; simpl in *; [done|].
  apply andb_prop in Hall as [Hc Hall].
  destruct (digit_char c Hc) as (_ & _ & -> & _). by rewrite IH.
Qed.

Lemma digits_ascii d : isdigit d = true → str_of_unicode d = Returns d.
Proof.
  intros Hd. unfold str_of_unicode.
  rewrite (digits_forall (λ c, (ord c <? 128)%nat) d); [done| |done].
  intros c Hc. by destruct (digit_char c Hc) as (_ & _ & _ & -> & _).
Qed.

Lemma digits_strip (space : ascii → bool) d :
  (∀ c, is_digit c = true → space c = false) →
  isdigit d = true → strip space d = d.
Proof.
  intros Hspace Hd. unfold strip.
  destruct d as [|c d]; [done|]. simpl in Hd.
  apply andb_prop in Hd as [Hc Hd].
  rewrite lstrip_keep by auto.
  apply rstrip_clean. simpl. rewrite (Hspace c Hc). simpl.
  rewrite str_existsb_forallb, (str_forallb_impl is_digit); [done| |done].
  intros c' Hc'. by rewrite Hspace.
Qed.

Lemma digits_int d :
  isdigit d = true → int_of_str d = Returns (digits_value 0 d).
Proof.
  intros Hd. unfold int_of_str.
  rewrite digits_strip; [|intros c Hc; by destruct (digit_char c Hc) as (_ & -> & _)|done].
  destruct d as [|c d]; [done|].
  assert (is_digit c = true) as Hc by (simpl in Hd; by apply andb_prop in Hd as [? _]).
  assert (read_sign (String c d) = (false, String c d)) as ->.
  { destruct c as [[] [] [] [] [] [] [] []]; try discriminate; reflexivity. }
  by rewrite Hd.
Qed.

(** Printing a natural number in decimal and reading it back. *)
Lemma string_of_uint_digits d :
  str_forallb is_digit (NilEmpty.string_of_uint d) = true.
Proof. induction d; simpl; auto. Qed.

Lemma str_of_nat_isdigit n : isdigit (str_of_nat n) = true.
Proof.
  unfold str_of_nat, NilZero.string_of_uint.
  destruct (Nat.to_uint n); simpl; try done; apply string_of_uint_digits.
Qed.

Lemma digits_value_uint d : ∀ acc : nat,
  digits_value (Z.of_nat acc) (NilEmpty.string_of_uint d)
  = Z.of_nat (Nat.of_uint_acc d acc).
Proof.
  induction d; intros acc; simpl; [done|..];
    rewrite <- IHd; f_equal; rewrite Nat.tail_mul_spec;
    match goal with
    | |- context [digit_value ?c] =>
        let v := eval vm_compute in (digit_value c) in
        change (digit_value c) with v
    end; lia.
Qed.

Lemma str_of_nat_value n : digits_value 0 (str_of_nat n) = Z.of_nat n.
Proof.
  unfold str_of_nat, NilZero.string_of_uint.
  rewrite <- (DecimalNat.Unsigned.of_to n) at 2. unfold Nat.of_uint.
  destruct (Nat.to_uint n) eqn:Hn;
    try (rewrite <- Hn; apply (digits_value_uint (Nat.to_uint n) 0)).
  done.
Qed.

(* ===================================================================== *)
(** * Strings: what stripping and splitting keep *)
(* ===================================================================== *)

(* ===================================================================== *)
(** * More on stripping and cutting *)
(* ===================================================================== *)

Lemma lstrip_forallb (p drop : ascii → bool) s :
  (∀ c, drop c = true → p c = true) →
  str_forallb p (lstrip drop s) = str_forallb p s.
Proof.
  intros Hdrop. induction s as [|c s IH]; simpl; [done|].
  destruct (drop c) eqn:Hc; [|done]. by rewrite IH, (Hdrop c Hc).
Qed.

Lemma rstrip_forallb (p drop : ascii → bool) s :
  (∀ c, drop c = true → p c = true) →
  str_forallb p (rstrip drop s) = str_forallb p s.
Proof.
  intros Hdrop. induction s as [|c s IH]; simpl; [done|].
  rewrite <- IH. destruct (rstrip drop s) as [|c' r]; simpl; [|done].
  destruct (drop c) eqn:Hc; simpl; [by rewrite (Hdrop c Hc)|by rewrite andb_true_r].
Qed.

(** Stripping removes characters of the dropped kind only: a property of
    characters that all of those have holds of the stripped string
    exactly when it holds of the string. *)
Lemma strip_forallb (p drop : ascii → bool) s :
  (∀ c, drop c = true → p c = true) →
  str_forallb p (strip drop s) = str_forallb p s.
Proof.
  intros Hdrop. unfold strip. by rewrite rstrip_forallb, lstrip_forallb.
Qed.

Lemma strip_has_char (drop : ascii → bool) c s :
  drop c = false → has_char c (strip drop s) = has_char c s.
Proof.
  intros Hc. unfold has_char. rewrite !str_existsb_forallb. f_equal.
  apply strip_forallb. intros c' Hc'.
  destruct (Ascii.eqb c c') eqn:Heq; [|done].
  apply Ascii.eqb_eq in Heq. congruence.
Qed.

Lemma rstrip_idem drop s : rstrip drop (rstrip drop s) = rstrip drop s.
Proof.
  induction s as [|c s IH]; simpl; [done|].
  destruct (rstrip drop s) as [|c' r] eqn:Hr.
  - destruct (drop c) eqn:Hc; simpl; [done|]. by rewrite Hc.
  - change (rstrip drop (String c (String c' r)))
      with (match rstrip drop (String c' r) with
            | "" => if drop c then "" else String c ""
            | rest => String c rest
            end).
    by rewrite IH.
Qed.

Lemma rstrip_keeps_head drop c s :
  drop c = false → ∃ r, rstrip drop (String c s) = String c r.
Proof.
  intros Hc. simpl. destruct (rstrip drop s); rewrite ?Hc; eauto.
Qed.

Lemma lstrip_head drop s :
  lstrip drop s = "" ∨ ∃ c r, lstrip drop s = String c r ∧ drop c = false.
Proof.
  induction s as [|c s IH]; simpl; [by left|].
  destruct (drop c) eqn:Hc; [done|]. right. eauto.
Qed.

Lemma strip_idem drop s : strip drop (strip drop s) = strip drop s.
Proof.
  unfold strip. destruct (lstrip_head drop s) as [->|(c & r & -> & Hc)].
  - done.
  - destruct (rstrip_keeps_head drop c r Hc) as [r' Hr]. rewrite Hr.
    rewrite lstrip_keep by done. rewrite <- Hr. apply rstrip_idem.
Qed.

(** The first piece of a cut: it is free of the separator, and a
    property of all the characters of the string holds of it. *)
Lemma split_head c s :
  ∃ piece pieces,
    split c s = piece :: pieces ∧ has_char c piece = false ∧
    ∀ p, str_forallb p s = true → str_forallb p piece = true.
Proof.
  unfold has_char. induction s as [|a s (piece & pieces & Hs & Hclean & Hall)]; simpl.
  - by exists "", [].
  - destruct (Ascii.eqb a c) eqn:Ha.
    + by exists "", (split c s).
    + rewrite Hs. exists (String a piece), pieces. simpl.
      rewrite Ascii.eqb_sym, Ha. simpl. split; [done|]. split; [done|].
      intros p [Hp Hrest]%andb_prop. by rewrite Hp, Hall.
Qed.

Lemma rstrip_app drop s t :
  rstrip drop (s +:+ t) =
    match rstrip drop t with
    | "" => rstrip drop s
    | rest => s +:+ rest
    end.
Proof.
  induction s as [|c s IH]; push_append; simpl.
  - by destruct (rstrip drop t).
  - rewrite IH. destruct (rstrip drop t) as [|c' r]; [done|].
    by destruct s.
Qed.

(* ===================================================================== *)
(** * The money converter *)
(* ===================================================================== *)

(* ===================================================================== *)
(** * The converters on well-formed text *)
(* ===================================================================== *)

Lemma int_of_str_nat n : int_of_str (str_of_nat n) = Returns (Z.of_nat n).
Proof.
  rewrite digits_int by apply str_of_nat_isdigit. by rewrite str_of_nat_value.
Qed.

(** X1. The money converter reads a decimal number written with dollar
    signs and commas anywhere in it: whenever the text without those two
    characters is the decimal notation of [n], the result is [n]. *)
Theorem money_to_int_reads_separated_digits (s : string) (n : nat) :
  replace "," "" (replace "$" "" s) = str_of_nat n →
  money_to_int (PyStr s) = Returns (PyInt (Z.of_nat n)).
Proof.
  intros Hs. unfold money_to_int. simpl. by rewrite Hs, int_of_str_nat.
Qed.

Lemma money_to_int_reads_separated_digits_witness :
  money_to_int (PyStr "$1,2$34") = Returns (PyInt 1234).
Proof.
  apply (money_to_int_reads_separated_digits "$1,2$34" 1234).
  vm_compute; reflexivity.
Defined.

Lemma replace_forallb (p : ascii → bool) c s :
  str_forallb p (replace c "" s) = true →
  str_forallb (λ x, p x || Ascii.eqb x c) s = true.
Proof.
  induction s as [|a s IH]; simpl; [done|].
  destruct (Ascii.eqb a c) eqn:Ha; push_append; simpl.
  - intros H. by rewrite orb_true_r, IH.
  - intros [Hp Hs]%andb_prop. by rewrite Hp, IH.
Qed.

Lemma read_sign_forallb (p : ascii → bool) s :
  p "+"%char = true → p "-"%char = true →
  str_forallb p (read_sign s).2 = true → str_forallb p s = true.
Proof.
  intros Hplus Hminus. destruct s as [|c s]; [done|].
  destruct (Ascii.eqb c "-") eqn:H1; [apply Ascii.eqb_eq in H1 as ->; simpl; by rewrite Hminus|].
  destruct (Ascii.eqb c "+") eqn:H2; [apply Ascii.eqb_eq in H2 as ->; simpl; by rewrite Hplus|].
  assert (read_sign (String c s) = (false, String c s)) as ->; [|done].
  apply Ascii.eqb_neq in H1, H2.
  destruct c as [[] [] [] [] [] [] [] []]; try reflexivity; congruence.
Qed.

(** What [int()] accepts holds digits, one sign and white space only. *)
Lemma int_of_str_chars s z :
  int_of_str s = Returns z →
  str_forallb (λ c, is_digit c || isspace_unicode c
                    || Ascii.eqb c "+" || Ascii.eqb c "-") s = true.
Proof.
  unfold int_of_str.
  destruct (read_sign (strip isspace_unicode s)) as [neg body] eqn:Hsign.
  destruct (isdigit body) eqn:Hbody; [intros _|discriminate].
  rewrite <- (strip_forallb _ isspace_unicode);
    [|intros c Hc; rewrite Hc; by rewrite orb_true_r].
  apply read_sign_forallb; [done..|]. rewrite Hsign. simpl.
  apply (str_forallb_impl is_digit); [by intros c ->|]. by destruct body.
Qed.

(** X2. The money converter never makes a number of a text that holds
    anything but digits, a sign, white space, dollar signs and commas: an
    amount with a decimal point or a letter gives [None]. *)
Theorem money_to_int_accepts_money_chars_only (s : string) (z : Z) :
  money_to_int (PyStr s) = Returns (PyInt z) →
  str_forallb money_char s = true.
Proof.
  unfold money_to_int. simpl.
  destruct (int_of_str (replace "," "" (replace "$" "" s))) as [z'|] eqn:Hint;
    simpl; [intros _|discriminate].
  apply int_of_str_chars, replace_forallb, replace_forallb in Hint.
  revert Hint. apply str_forallb_impl. intros c. unfold money_char.
  destruct (is_digit c), (isspace_unicode c), (Ascii.eqb c "+"),
    (Ascii.eqb c "-"), (Ascii.eqb c "$"), (Ascii.eqb c ","); done.
Qed.

Lemma money_to_int_accepts_money_chars_only_witness :
  str_forallb money_char " -$1,000 " = true ∧
  money_to_int (PyStr "$1,234.56") = Returns PyNone.
Proof.
  split.
  - apply (money_to_int_accepts_money_chars_only " -$1,000 " (-1000)).
    vm_compute; reflexivity.
  - vm_compute; reflexivity.
Defined.

(* ===================================================================== *)
(** * The theater, runtime, title and people converters *)
(* ===================================================================== *)

Lemma space_is_ascii c : isspace_bytes c = true → (ord c <? 128)%nat = true.
Proof. destruct c as [[] [] [] [] [] [] [] []]; try discriminate; done. Qed.

Lemma str_of_unicode_ascii s :
  str_of_unicode s = if is_ascii s then Returns s else Raises UnicodeEncodeError.
Proof. reflexivity. Qed.

Lemma separated_digits_chars d n :
  replace "," "" d = str_of_nat n →
  d ≠ "" ∧ str_existsb isspace_unicode d = false.
Proof.
  intros Hd. split.
  - intros ->. pose proof (str_of_nat_isdigit n) as Hn. by rewrite <- Hd in Hn.
  - pose proof (str_of_nat_isdigit n) as Hn. rewrite <- Hd in Hn.
    assert (str_forallb is_digit (replace "," "" d) = true) as Hall
      by by destruct (replace "," "" d).
    apply replace_forallb in Hall. rewrite str_existsb_forallb.
    assert (str_forallb (λ c, negb (isspace_unicode c)) d = true) as ->; [|done].
    revert Hall. apply str_forallb_impl. intros c [Hc|Hc]%orb_prop.
    + by destruct (digit_char c Hc) as (_ & -> & _).
    + by apply Ascii.eqb_eq in Hc as ->.
Qed.

Lemma rstrip_space_shape drop c s :
  rstrip drop (String c s) = "" ∨ ∃ r, rstrip drop (String c s) = String c r.
Proof. simpl. destruct (rstrip drop s); [destruct (drop c)|]; eauto. Qed.

(** X3. The theater converter reads the first word of the text and drops
    the commas in it: when the text up to the first space is the decimal
    notation of [n] with commas anywhere, the result is [n], whatever
    follows the space. *)
Theorem theaters_to_int_reads_first_word (d rest : string) (n : nat) :
  replace "," "" d = str_of_nat n →
  theaters_to_int (PyStr (d +:+ " " +:+ rest)) = Returns (PyInt (Z.of_nat n)).
Proof.
  intros Hd. destruct (separated_digits_chars d n Hd) as [Hne Hclean].
  assert (has_char " " (str_of_nat n) = false) as Hn
    by (apply digits_no_char; [done|apply str_of_nat_isdigit]).
  unfold theaters_to_int. simpl. unfold strip.
  assert (lstrip isspace_unicode (d +:+ " " +:+ rest) = d +:+ " " +:+ rest) as ->.
  { destruct d as [|c d]; [done|]. push_append. apply lstrip_keep.
    simpl in Hclean. by apply orb_false_elim in Hclean as [-> _]. }
  rewrite rstrip_app, (rstrip_clean _ d Hclean).
  change (" " +:+ rest) with (String " " rest).
  destruct (rstrip_space_shape isspace_unicode " " rest) as [->|[r ->]].
  - rewrite Hd, (split_without_separator _ _ Hn). simpl.
    by rewrite int_of_str_nat.
  - rewrite replace_app, Hd. simpl replace.
    rewrite (split_app_sep _ _ _ Hn). simpl. by rewrite int_of_str_nat.
Qed.

Lemma theaters_to_int_reads_first_word_witness :
  theaters_to_int (PyStr ("3,401" +:+ " " +:+ "theaters")) = Returns (PyInt 3401).
Proof.
  apply (theaters_to_int_reads_first_word "3,401" "theaters" 3401).
  vm_compute; reflexivity.
Defined.

(** X4. The runtime converter reads the first and the third of the words
    that white space separates, as hours and minutes: the word between
    them and the words after them are not looked at. *)
Theorem runtime_to_minutes_reads_two_words (s unit : string) (h m : nat)
    (rest : list string) :
  split_ws isspace_unicode s = str_of_nat h :: unit :: str_of_nat m :: rest →
  runtime_to_minutes (PyStr s)
  = Returns (PyInt (Z.of_nat h * 60 + Z.of_nat m)).
Proof.
  intros Hs. unfold runtime_to_minutes. simpl. rewrite Hs. simpl.
  by rewrite !int_of_str_nat.
Qed.

Lemma runtime_to_minutes_reads_two_words_witness :
  runtime_to_minutes (PyStr "2 min 15 hrs. or so") = Returns (PyInt 135).
Proof.
  apply (runtime_to_minutes_reads_two_words _ "min" 2 15 ["hrs."; "or"; "so"]).
  vm_compute; reflexivity.
Defined.

(** X5. The title converter is a projection: a title it returns holds no
    opening parenthesis and no white space at either end, and it is
    returned unchanged when it is cleaned again. *)
Theorem clean_title_is_a_projection (s t : string) :
  clean_title (PyStr s) = Returns (PyStr t) →
  has_char "(" t = false ∧
  strip isspace_bytes t = t ∧
  clean_title (PyStr t) = Returns (PyStr t).
Proof.
  unfold clean_title. simpl.
  destruct (split_head "(" s) as (piece & pieces & -> & Hclean & Hall).
  simpl. rewrite str_of_unicode_ascii.
  destruct (is_ascii piece) eqn:Hascii; simpl; [|discriminate].
  intros [= <-].
  assert (has_char "(" (strip isspace_bytes piece) = false) as Hparen
    by by rewrite strip_has_char.
  split; [done|]. split; [apply strip_idem|].
  rewrite (split_without_separator _ _ Hparen). simpl.
  rewrite str_of_unicode_ascii. unfold is_ascii in *.
  rewrite strip_forallb by apply space_is_ascii. rewrite Hascii. simpl.
  by rewrite strip_idem.
Qed.

Lemma clean_title_is_a_projection_witness :
  clean_title (PyStr "Foo Bar") = Returns (PyStr "Foo Bar").
Proof.
  apply (clean_title_is_a_projection "  Foo Bar (2001) (re-release)" "Foo Bar").
  vm_compute; reflexivity.
Defined.

Lemma star_is_ascii c : Ascii.eqb "*" c = true → (ord c <? 128)%nat = true.
Proof. by intros <-%Ascii.eqb_eq. Qed.

Lemma is_ascii_strip_star person :
  is_ascii (strip (Ascii.eqb "*") person) = is_ascii person.
Proof. apply strip_forallb, star_is_ascii. Qed.

Lemma names_all_ascii names :
  forallb is_ascii names = true →
  map_outcome (λ person, str_of_unicode (strip (Ascii.eqb "*") person)) names
  = Returns (map (strip (Ascii.eqb "*")) names).
Proof.
  induction names as [|person names IH]; simpl; [done|].
  intros [Hp Hnames]%andb_prop.
  rewrite str_of_unicode_ascii, is_ascii_strip_star, Hp. simpl.
  by rewrite (IH Hnames).
Qed.

Lemma names_not_all_ascii names :
  forallb is_ascii names = false →
  map_outcome (λ person, str_of_unicode (strip (Ascii.eqb "*") person)) names
  = Raises UnicodeEncodeError.
Proof.
  induction names as [|person names IH]; simpl; [done|].
  rewrite str_of_unicode_ascii, is_ascii_strip_star.
  destruct (is_ascii person); simpl; [|done].
  intros Hnames. by rewrite (IH Hnames).
Qed.

Lemma people_to_list_of_tag (e : element) :
  is_tag e = true →
  people_to_list (PyElement e) =
    if forallb is_ascii (kept_names e.2)
    then Returns (PyList (map (strip (Ascii.eqb "*")) (kept_names e.2)))
    else Returns PyNone.
Proof.
  destruct e as [p [s|name attrs contents]]; [discriminate|intros _].
  unfold people_to_list, as_tag. simpl.
  fold (kept_names (Tag name attrs contents)).
  destruct (forallb is_ascii (kept_names (Tag name attrs contents))) eqn:Hall.
  - by rewrite names_all_ascii.
  - by rewrite names_not_all_ascii.
Qed.

(** X6. The list of people is all or nothing.  For a tag, the names kept
    are its stripped strings without a parenthesis.  If all of them are
    ASCII the result is the list of them, in order, with the asterisks at
    their ends removed, and no entry holds a parenthesis or a character
    above 127.  A single name with a character above 127 makes the
    result [None]: the other names are lost with it. *)
Theorem people_to_list_all_or_nothing (e : element) :
  is_tag e = true →
  (forallb is_ascii (kept_names e.2) = true →
   ∃ people,
     people_to_list (PyElement e) = Returns (PyList people) ∧
     people = map (strip (Ascii.eqb "*")) (kept_names e.2) ∧
     Forall (λ person, has_char "(" person = false ∧ is_ascii person = true)
            people) ∧
  (forallb is_ascii (kept_names e.2) = false →
   people_to_list (PyElement e) = Returns PyNone).
Proof.
  intros Htag. rewrite (people_to_list_of_tag e Htag). split.
  - intros Hall. rewrite Hall. eexists. split; [done|]. split; [done|].
    apply Forall_forall. intros person Hperson.
    apply list_elem_of_fmap in Hperson as (name & -> & Hname).
    rewrite is_ascii_strip_star, strip_has_char by done.
    rewrite forallb_forall in Hall.
    apply list_elem_of_In in Hname as Hin. split; [|by apply Hall].
    unfold kept_names in Hin. apply filter_In in Hin as [_ Hin].
    by apply negb_true_iff in Hin.
  - by intros ->.
Qed.

Lemma people_to_list_all_or_nothing_witness :
  people_to_list
    (PyElement ([], Tag "font" ∅
       [NavigableString "Tom Hanks*"; Tag "br" ∅ [];
        NavigableString " (executive) "; NavigableString " Rita Wilson "]))
  = Returns (PyList ["Tom Hanks"; "Rita Wilson"]) ∧
  people_to_list
    (PyElement ([], Tag "font" ∅
       [NavigableString "Tom Hanks*"; Tag "br" ∅ [];
        NavigableString (String (chr 233) "mile")]))
  = Returns PyNone.
Proof.
  split.
  - destruct (proj1 (people_to_list_all_or_nothing
             ([], Tag "font" ∅
                [NavigableString "Tom Hanks*"; Tag "br" ∅ [];
                 NavigableString " (executive) ";
                 NavigableString " Rita Wilson "]) eq_refl) eq_refl)
      as (people & Hpeople & -> & _).
    exact Hpeople.
  - exact (proj2 (people_to_list_all_or_nothing
             ([], Tag "font" ∅
                [NavigableString "Tom Hanks*"; Tag "br" ∅ [];
                 NavigableString (String (chr 233) "mile")]) eq_refl)
             eq_refl).
Defined.

(* ===================================================================== *)
(** * The award converters on the sentence of the site *)
(* ===================================================================== *)

Lemma word_to_num_digits env d :
  isdigit d = true → word_to_num env d = Returns (PyInt (digits_value 0 d)).
Proof.
  intros Hd. unfold word_to_num.
  rewrite (replace_clean "-" " " d) by by apply digits_no_char.
  rewrite (digits_lower d Hd), Hd, (digits_int d Hd). done.
Qed.

Lemma word_to_num_nat env n :
  word_to_num env (str_of_nat n) = Returns (PyInt (Z.of_nat n)).
Proof.
  rewrite word_to_num_digits by apply str_of_nat_isdigit.
  by rewrite str_of_nat_value.
Qed.

Lemma str_of_nat_is_ascii n : is_ascii (str_of_nat n) = true.
Proof.
  pose proof (digits_ascii _ (str_of_nat_isdigit n)) as H.
  rewrite str_of_unicode_ascii in H. by destruct (is_ascii (str_of_nat n)).
Qed.

Lemma is_ascii_app s t : is_ascii (s +:+ t) = is_ascii s && is_ascii t.
Proof. apply str_forallb_app. Qed.

Lemma str_of_nat_nonempty n : str_of_nat n ≠ "".
Proof.
  intros H. pose proof (str_of_nat_isdigit n) as Hd. by rewrite H in Hd.
Qed.

Lemma str_of_nat_no_char c n :
  is_digit c = false → has_char c (str_of_nat n) = false.
Proof. intros Hc. apply digits_no_char; [done|apply str_of_nat_isdigit]. Qed.

Lemma str_of_nat_no_space space n :
  (∀ c, is_digit c = true → space c = false) →
  str_existsb space (str_of_nat n) = false.
Proof.
  intros Hspace. rewrite str_existsb_forallb.
  rewrite (digits_forall (λ c, negb (space c))); [done| |apply str_of_nat_isdigit].
  intros c Hc. by rewrite (Hspace c Hc).
Qed.

Lemma digit_not_space_bytes c : is_digit c = true → isspace_bytes c = false.
Proof. intros Hc. by destruct (digit_char c Hc) as (-> & _). Qed.

(** X7. The two award converters agree with the sentence the site
    prints: for every pair of counts written in digits,
    "Nominated for N Oscars, won M." gives N nominations and M wins. *)
Theorem award_sentence_round_trip (env : Env) (n m : nat) :
  noms_from_oscars env (PyStr (award_sentence n m))
  = Returns (PyInt (Z.of_nat n)) ∧
  wins_from_oscars env (PyStr (award_sentence n m))
  = Returns (PyInt (Z.of_nat m)).
Proof.
  set (sentence := award_sentence n m). unfold award_sentence in sentence.
  remember ("Nominated for " +:+ str_of_nat n +:+ " Oscars") as first_clause
    eqn:first_def.
  remember (" won " +:+ str_of_nat m +:+ ".") as second_clause eqn:second_def.
  assert (sentence = first_clause +:+ String "," second_clause) as Hsentence.
  { unfold sentence. subst. by rewrite !append_assoc'. }
  assert (has_char "," first_clause = false) as Hfirst.
  { subst. rewrite !has_char_app, str_of_nat_no_char; done. }
  assert (has_char "," second_clause = false) as Hsecond.
  { subst. rewrite !has_char_app, str_of_nat_no_char; done. }
  assert (split "," sentence = [first_clause; second_clause]) as Hsplit.
  { rewrite Hsentence, (split_app_sep _ _ _ Hfirst).
    by rewrite (split_without_separator _ _ Hsecond). }
  clearbody sentence. clear Hsentence Hfirst Hsecond.
  split.
  - unfold noms_from_oscars. simpl. rewrite Hsplit. simpl.
    rewrite str_of_unicode_ascii.
    assert (is_ascii first_clause = true) as ->.
    { subst. by rewrite !is_ascii_app, str_of_nat_is_ascii. }
    simpl.
    assert (strip isspace_bytes first_clause = first_clause) as ->.
    { unfold strip. subst.
      change ("Nominated for " +:+ ?x) with (String "N" ("ominated for " +:+ x)).
      rewrite lstrip_keep by done.
      change (String "N" ("ominated for " +:+ ?x)) with ("Nominated for " +:+ x).
      change " Oscars" with (" Oscar" +:+ String "s" "").
      rewrite <- !append_assoc'. by apply rstrip_nonempty. }
    subst. rewrite !lower_app.
    rewrite (digits_lower _ (str_of_nat_isdigit n)).
    assert (lower "Nominated for " +:+ str_of_nat n +:+ lower " Oscars"
            = "nominated" +:+ String " " ("for" +:+ String " "
                (str_of_nat n +:+ String " " "oscars"))) as -> by reflexivity.
    rewrite split_app_sep by done. rewrite split_app_sep by done.
    rewrite split_app_sep by by apply str_of_nat_no_char.
    simpl. by rewrite word_to_num_nat.
  - unfold wins_from_oscars. simpl. rewrite Hsplit. simpl.
    rewrite str_of_unicode_ascii.
    assert (is_ascii second_clause = true) as ->.
    { subst. by rewrite !is_ascii_app, str_of_nat_is_ascii. }
    simpl.
    assert (replace "." "" second_clause = " won " +:+ str_of_nat m) as ->.
    { subst. rewrite !replace_app.
      rewrite (replace_clean "." "" (str_of_nat m)) by by apply str_of_nat_no_char.
      change (replace "." "" " won ") with " won ".
      change (replace "." "" ".") with "".
      by rewrite append_empty_r. }
    assert (strip isspace_bytes (" won " +:+ str_of_nat m) = "won " +:+ str_of_nat m) as ->.
    { unfold strip.
      change (" won " +:+ ?x) with (String " " (String "w" ("on " +:+ x))).
      change (lstrip isspace_bytes (String " " (String "w" ?x)))
        with (String "w" x).
      change (String "w" ("on " +:+ ?x)) with ("won " +:+ x).
      rewrite rstrip_app.
      rewrite rstrip_clean by (apply str_of_nat_no_space, digit_not_space_bytes).
      pose proof (str_of_nat_nonempty m). by destruct (str_of_nat m). }
    rewrite lower_app, (digits_lower _ (str_of_nat_isdigit m)).
    assert (lower "won " +:+ str_of_nat m
            = "won" +:+ String " " (str_of_nat m)) as -> by reflexivity.
    rewrite split_app_sep by done.
    rewrite split_without_separator by by apply str_of_nat_no_char.
    simpl. by rewrite word_to_num_nat.
Qed.

(* ===================================================================== *)
(** * The links of an index page *)
(* ===================================================================== *)

Lemma map_outcome_returns {A B : Type} (f : A → outcome B) l : ∀ ys,
  map_outcome f l = Returns ys → Forall2 (λ x y, f x = Returns y) l ys.
Proof.
  induction l as [|x l IH]; simpl; intros ys.
  - intros [= <-]. constructor.
  - destruct (f x) as [y|e] eqn:Hx; simpl; [|discriminate].
    destruct (map_outcome f l) as [ys'|e]; simpl; [|discriminate].
    intros [= <-]. constructor; [done|by apply IH].
Qed.

Lemma map_outcome_raises {A B : Type} (f : A → outcome B) l e :
  map_outcome f l = Raises e ↔
  ∃ before x after,
    l = before ++ x :: after ∧ f x = Raises e ∧
    Forall (λ x', returned (f x') = true) before.
Proof.
  induction l as [|x l IH]; simpl.
  - split; [discriminate|]. intros (before & x & after & Hl & _).
    by destruct before.
  - destruct (f x) as [y|e'] eqn:Hx; simpl.
    + destruct (map_outcome f l) as [ys|e'] eqn:Hl; simpl.
      * split; [discriminate|].
        intros ([|x' before] & x0 & after & [= -> ->] & He & Hbefore).
        { congruence. }
        apply Forall_cons in Hbefore as [_ Hbefore].
        assert (Returns ys = Raises e) as Hno; [|discriminate Hno].
        apply IH. by exists before, x0, after.
      * split.
        -- intros [= ->]. destruct (proj1 IH eq_refl)
             as (before & x0 & after & -> & He & Hbefore).
           exists (x :: before), x0, after. split; [done|]. split; [done|].
           constructor; [by rewrite Hx|done].
        -- intros ([|x' before] & x0 & after & [= -> ->] & He & Hbefore).
           { congruence. }
           apply Forall_cons in Hbefore as [_ Hbefore]. f_equal.
           assert (Raises e' = Raises e :> outcome (list B)) as [= ->];
             [|done].
           apply IH. by exists before, x0, after.
    + split.
      * intros [= ->]. by exists [], x, l.
      * intros ([|x' before] & x0 & after & [= -> ->] & He & Hbefore).
        { congruence. }
        apply Forall_cons in Hbefore as [Hx' _]. by rewrite Hx in Hx'.
Qed.

Lemma get_movies_on_page_area soup :
  get_movies_on_page soup =
    (body ← expect (link_area soup);
     hrefs ← map_outcome (λ tag, tag_attr tag "href")
                         (find_all (tag_named "a") body);
     Returns (List.filter (contains "movies/?id") hrefs)).
Proof.
  unfold get_movies_on_page, link_area.
  by destruct (find_tag (tag_named "body") ([], soup)) as [soup_body|].
Qed.

Lemma anchor_href tag :
  tag_named "a" tag = true →
  returned (tag_attr tag "href") = true ∨ tag_attr tag "href" = Raises KeyError.
Proof.
  unfold tag_named, tag_attr. destruct tag.2 as [s|name attrs cs]; [done|].
  intros _. destruct (attrs !! "href"); by eauto.
Qed.

(** X8. The links of an index page.  When [get_movies_on_page] returns,
    the page has a link area (a tag with [id="body"] below the [body]
    tag), every link returned holds the marker [movies/?id], and every
    link returned is the [href] of an [a] tag below the link area: a
    link elsewhere on the page is never returned. *)
Theorem links_come_from_the_link_area (soup : node) (urls : list string) :
  get_movies_on_page soup = Returns urls →
  ∃ body,
    link_area soup = Some body ∧
    Forall (λ url, contains "movies/?id" url = true) urls ∧
    ∀ url, url ∈ urls →
      ∃ tag, tag ∈ find_all (tag_named "a") body ∧
             tag_attr tag "href" = Returns url.
Proof.
  rewrite get_movies_on_page_area.
  destruct (link_area soup) as [body|]; simpl; [|discriminate].
  destruct (map_outcome _ _) as [hrefs|e] eqn:Hhrefs; simpl; [|discriminate].
  intros [= <-]. exists body. split; [done|].
  apply map_outcome_returns in Hhrefs. split.
  - apply Forall_forall. intros url Hurl.
    apply list_elem_of_In, filter_In in Hurl. tauto.
  - intros url Hurl. apply list_elem_of_In, filter_In in Hurl as [Hurl _].
    apply list_elem_of_In, list_elem_of_lookup in Hurl as [i Hi].
    destruct (Forall2_lookup_r _ _ _ _ _ Hhrefs Hi) as (tag & Htag & Hhref).
    exists tag. split; [|done]. by eapply list_elem_of_lookup_2.
Qed.

Lemma links_come_from_the_link_area_witness :
  ∃ body,
    link_area (index_page ["/movies/?id=a.htm"; "/about.htm"]) = Some body ∧
    Forall (λ url, contains "movies/?id" url = true) ["/movies/?id=a.htm"] ∧
    ∀ url, url ∈ ["/movies/?id=a.htm"] →
      ∃ tag, tag ∈ find_all (tag_named "a") body ∧
             tag_attr tag "href" = Returns url.
Proof.
  apply (links_come_from_the_link_area
           (index_page ["/movies/?id=a.htm"; "/about.htm"])).
  vm_compute; reflexivity.
Defined.

(** X9. Why an index page fails.  [get_movies_on_page] raises in two
    cases only: an [AttributeError] when the page has no link area, and
    a [KeyError] when it has one and some [a] tag below it has no [href]
    attribute, whether or not the other links hold the marker: one such
    tag makes the whole page fail. *)
Theorem index_page_failures (soup : node) (e : exn) :
  get_movies_on_page soup = Raises e ↔
  (link_area soup = None ∧ e = AttributeError) ∨
  (∃ body tag,
     link_area soup = Some body ∧
     tag ∈ find_all (tag_named "a") body ∧
     tag_attr tag "href" = Raises KeyError ∧ e = KeyError).
Proof.
  rewrite get_movies_on_page_area.
  destruct (link_area soup) as [body|]; simpl.
  - assert (∀ tag, tag ∈ find_all (tag_named "a") body →
              tag_named "a" tag = true) as Hanchors.
    { intros tag Htag. apply list_elem_of_In, filter_In in Htag. tauto. }
    split.
    + destruct (map_outcome _ _) as [hrefs|e'] eqn:Hhrefs; simpl;
        [discriminate|].
      intros [= ->]. apply map_outcome_raises in Hhrefs
        as (before & tag & after & Hl & He & _).
      assert (tag ∈ find_all (tag_named "a") body) as Htag
        by (rewrite Hl; set_solver).
      right. exists body, tag.
      destruct (anchor_href tag (Hanchors tag Htag)) as [Hr|Hk].
      * by rewrite He in Hr.
      * repeat split; try done. congruence.
    + intros [[? _]|(body' & tag & [= <-] & Htag & Hk & ->)]; [done|].
      apply list_elem_of_In in Htag as Hin.
      assert (∃ e', map_outcome (λ tag, tag_attr tag "href")
                      (find_all (tag_named "a") body) = Raises e') as [e' He'].
      { destruct (map_outcome _ _) as [hrefs|e'] eqn:Hhrefs; [|by eauto].
        apply map_outcome_returns in Hhrefs.
        apply list_elem_of_lookup in Htag as [i Hi].
        destruct (Forall2_lookup_l _ _ _ _ _ Hhrefs Hi) as (y & _ & Hy).
        congruence. }
      rewrite He'. simpl. f_equal.
      apply map_outcome_raises in He' as (before & tag' & after & Hl & He & _).
      assert (tag' ∈ find_all (tag_named "a") body) as Htag'
        by (rewrite Hl; set_solver).
      destruct (anchor_href tag' (Hanchors tag' Htag')) as [Hr|Hk'].
      * by rewrite He in Hr.
      * congruence.
  - split.
    + intros [= <-]. by left.
    + intros [[_ ->]|(body & tag & ? & _)]; done.
Qed.

(* ===================================================================== *)
(** * The crawl: links, batches and requests *)
(* ===================================================================== *)

Lemma page_links_marked soup urls :
  get_movies_on_page soup = Returns urls →
  Forall (λ url, contains "movies/?id" url = true) urls.
Proof.
  rewrite get_movies_on_page_area.
  destruct (link_area soup) as [body|]; simpl; [|discriminate].
  destruct (map_outcome _ _) as [hrefs|e]; simpl; [|discriminate].
  intros [= <-]. apply Forall_forall. intros url Hurl.
  apply list_elem_of_In, filter_In in Hurl. tauto.
Qed.

Lemma served_marked env reqs : ∀ history,
  Forall (λ url, contains "movies/?id" url = true) (served env history reqs).
Proof.
  induction reqs as [|url reqs IH]; intros history; simpl; [constructor|].
  apply Forall_app. split; [|apply IH].
  destruct (http_get env history url ≫= BeautifulSoup env) as [soup|e];
    simpl; [|constructor].
  destruct (get_movies_on_page soup) as [links|e] eqn:Hlinks; [|constructor].
  by apply page_links_marked in Hlinks.
Qed.

(** X10. What a crawl returns and what it leaves alone: every link of a
    returned list holds the marker [movies/?id], and the crawl prints
    nothing. *)
Theorem crawl_returns_marked_links (env : Env) (fuel : nat)
    (letter_list : list string) (w : world) (urls : list string)
    (w' : world) :
  get_movies_from_letters fuel env letter_list w = Some (Returns urls, w') →
  Forall (λ url, contains "movies/?id" url = true) urls ∧
  stdout w' = stdout w.
Proof.
  unfold get_movies_from_letters. intros Hrun.
  apply letters_loop_served in Hrun as (reqs & _ & Hout & ->).
  split; [apply served_marked|done].
Qed.

Lemma crawl_returns_marked_links_witness :
  Forall (λ url, contains "movies/?id" url = true) five_movies ∧
  stdout {| requested := [index_url "A" 1; index_url "A" 2]; stdout := [] |}
  = stdout fresh_world.
Proof.
  apply (crawl_returns_marked_links five_movie_site 2 ["A"] fresh_world).
  vm_compute; reflexivity.
Defined.

Lemma pages_loop_acc env fuel : ∀ letter page acc w,
  pages_loop fuel env letter page acc w =
    match pages_loop fuel env letter page [] w with
    | Some (Returns urls, w') => Some (Returns (acc ++ urls), w')
    | stopped => stopped
    end.
Proof.
  induction fuel as [|fuel IH]; intros letter page acc w; [done|].
  rewrite !pages_loop_unfold.
  destruct (page_urls env letter page (requested w)) as [[|u us]|e];
    [by rewrite app_nil_r| |done].
  rewrite (IH _ _ (acc ++ u :: us)), (IH _ _ ([] ++ u :: us)).
  destruct (pages_loop fuel env letter (page + 1) [] _) as [[[urls|e] w']|];
    [|done..].
  by rewrite <- app_assoc.
Qed.

Lemma letters_loop_acc env fuel letter_list : ∀ acc w,
  letters_loop fuel env letter_list acc w =
    match letters_loop fuel env letter_list [] w with
    | Some (Returns urls, w') => Some (Returns (acc ++ urls), w')
    | stopped => stopped
    end.
Proof.
  induction letter_list as [|letter rest IH]; intros acc w; simpl.
  - by rewrite app_nil_r.
  - rewrite (pages_loop_acc env fuel letter 1 acc).
    destruct (pages_loop fuel env letter 1 [] w) as [[[urls|e] w1]|];
      [|done..].
    rewrite (IH (acc ++ urls)), (IH urls).
    destruct (letters_loop fuel env rest [] w1) as [[[urls'|e] w2]|];
      [|done..].
    by rewrite <- app_assoc.
Qed.

(** X11. A crawl can be cut in two: crawling the letters of two lists in
    one call is crawling the first list and then, from the world that
    left, the second; the links are those of the first crawl followed by
    those of the second, and an exception or an endless letter in the
    first part keeps the second from starting. *)
Theorem crawl_of_appended_letters (env : Env) (fuel : nat)
    (first_letters second_letters : list string) (w : world) :
  get_movies_from_letters fuel env (first_letters ++ second_letters) w =
    crawl_then (get_movies_from_letters fuel env first_letters w)
               (get_movies_from_letters fuel env second_letters).
Proof.
  unfold get_movies_from_letters, crawl_then. rewrite letters_loop_app.
  destruct (letters_loop fuel env first_letters [] w)
    as [[[urls1|e] w1]|]; [|done..].
  apply letters_loop_acc.
Qed.

Lemma pages_loop_requests env fuel : ∀ letter page acc w urls w',
  pages_loop fuel env letter page acc w = Some (Returns urls, w') →
  ∃ k, (k < fuel)%nat ∧
       requested w' = requested w ++ page_requests letter page (S k).
Proof.
  induction fuel as [|fuel IH]; intros letter page acc w urls w';
    [discriminate|].
  rewrite pages_loop_unfold.
  destruct (page_urls env letter page (requested w)) as [[|u us]|e];
    [| |discriminate].
  - intros [= <- <-]. exists 0%nat. split; [lia|done].
  - intros Hrun. apply IH in Hrun as (k & Hk & ->).
    exists (S k). split; [lia|].
    rewrite (page_requests_step letter page (S k)). simpl.
    by rewrite <- app_assoc.
Qed.

(** X12. The requests of a crawl that returned: the letters in the order
    of the list, and for each letter its pages 1, 2, ... without a gap;
    every letter is requested at least once, and no letter more often
    than the fuel allows. *)
Theorem crawl_requests_pages_in_order (env : Env) (fuel : nat)
    (letter_list : list string) (w : world) (urls : list string)
    (w' : world) :
  get_movies_from_letters fuel env letter_list w = Some (Returns urls, w') →
  ∃ counts,
    length counts = length letter_list ∧
    Forall (λ k, (k < fuel)%nat) counts ∧
    requested w' = requested w ++ crawl_requests letter_list counts.
Proof.
  unfold get_movies_from_letters. generalize (@nil string) as acc.
  revert w. induction letter_list as [|letter rest IH]; intros w acc; simpl.
  - intros [= <- <-]. exists []. by rewrite app_nil_r.
  - destruct (pages_loop fuel env letter 1 acc w) as [[[acc'|e] w1]|] eqn:Hrun;
      [|discriminate..].
    intros Hrest. apply pages_loop_requests in Hrun as (k & Hk & Hreq).
    apply IH in Hrest as (counts & Hlen & Hall & ->).
    exists (k :: counts). split; [simpl; by rewrite Hlen|].
    split; [by constructor|].
    rewrite Hreq. unfold crawl_requests. simpl. by rewrite <- !app_assoc.
Qed.

Lemma crawl_requests_pages_in_order_witness :
  ∃ counts,
    length counts = length ["A"] ∧
    Forall (λ k, (k < 2)%nat) counts ∧
    requested {| requested := [index_url "A" 1; index_url "A" 2];
                 stdout := [] |}
    = requested fresh_world ++ crawl_requests ["A"] counts.
Proof.
  apply (crawl_requests_pages_in_order five_movie_site 2 ["A"] fresh_world
           five_movies).
  vm_compute; reflexivity.
Defined.

(* ===================================================================== *)
(** * The locator and the record *)
(* ===================================================================== *)

Lemma locator_people_shape env soup field_name :
  get_movie_value env soup field_name true = PyNone ∨
  ∃ obj tag,
    find_string (re_search env field_name) soup = Some obj ∧
    tag ∈ next_elements soup obj ∧ is_tag tag = true ∧
    get_movie_value env soup field_name true = PyElement tag ∧
    get_movie_value env soup field_name false = PyStr (get_text tag.2).
Proof.
  unfold get_movie_value.
  destruct (find_string (re_search env field_name) soup) as [obj|];
    [|by left].
  destruct (negb (truthy (PyElement obj))); [by left|].
  destruct (findNextSibling soup obj) as [sibling|] eqn:Hsibling.
  - right. exists obj, sibling. unfold findNextSibling in Hsibling.
    apply find_some in Hsibling as [Hin Htag].
    apply list_elem_of_In in Hin. unfold next_siblings in Hin.
    apply list_elem_of_filter in Hin as [_ Hin]. done.
  - destruct (findNext soup obj) as [following|] eqn:Hfollowing; [|by left].
    right. exists obj, following. unfold findNext in Hfollowing.
    apply find_some in Hfollowing as [Hin Htag].
    by apply list_elem_of_In in Hin.
Qed.

(** X13. The two modes of the locator settle on the same tag.  In the
    list-of-people mode the result is [None] or a tag, never a string
    node and never text; the tag comes after the label in document
    order; and the scalar mode returns [None] in the first case and the
    text of that very tag in the second. *)
Theorem locator_modes_agree (env : Env) (soup : node) (field_name : string) :
  match get_movie_value env soup field_name true with
  | PyNone => get_movie_value env soup field_name false = PyNone
  | PyElement tag =>
      is_tag tag = true ∧
      (∃ obj, find_string (re_search env field_name) soup = Some obj ∧
              tag ∈ next_elements soup obj) ∧
      get_movie_value env soup field_name false = PyStr (get_text tag.2)
  | _ => False
  end.
Proof.
  destruct (locator_people_shape env soup field_name)
    as [Hnone|(obj & tag & Hobj & Hin & Htag & -> & ->)].
  - rewrite Hnone. unfold get_movie_value in *.
    destruct (find_string (re_search env field_name) soup) as [obj|]; [|done].
    destruct (negb (truthy (PyElement obj))); [done|].
    destruct (findNextSibling soup obj); [done|].
    by destruct (findNext soup obj).
  - split; [done|]. split; [|done]. by exists obj.
Qed.

(** X14. A list-of-people field of the record is [None] for two reasons
    only: no tag follows the label (or the label is not on the page),
    or one of the names kept from the tag has a character above 127.
    The locator never hands the converter something it cannot read. *)
Theorem people_field_is_None_for_two_reasons (env : Env) (soup : node)
    (field_name : string) :
  people_to_list (get_movie_value env soup field_name true) = Returns PyNone
  ↔ get_movie_value env soup field_name true = PyNone ∨
    ∃ tag, get_movie_value env soup field_name true = PyElement tag ∧
           forallb is_ascii (kept_names tag.2) = false.
Proof.
  destruct (locator_people_shape env soup field_name)
    as [->|(obj & tag & _ & _ & Htag & -> & _)].
  - split; [by left|done].
  - rewrite (people_to_list_of_tag tag Htag).
    destruct (forallb is_ascii (kept_names tag.2)) eqn:Hall.
    + split; [discriminate|]. intros [?|(tag' & [= <-] & ?)]; congruence.
    + split; [|done]. intros _. right. by exists tag.
Qed.

Lemma dict_of_zip_keys (keys : list string) (values : list pyval) :
  length keys = length values → NoDup keys →
  (∀ key, is_Some (dict_of_zip keys values !! key) ↔ key ∈ keys) ∧
  size (dict_of_zip keys values) = length keys.
Proof.
  intros Hlen Hnodup. unfold dict_of_zip.
  assert ((zip keys values).*1 = keys) as Hfst by (apply fst_zip; lia).
  split.
  - intros key. rewrite <- not_eq_None_Some, <- not_elem_of_list_to_map, Hfst.
    destruct (decide (key ∈ keys)); tauto.
  - rewrite map_size_list_to_map by by rewrite Hfst.
    rewrite length_zip. lia.
Qed.

Lemma headers_NoDup : NoDup headers.
Proof. apply (bool_decide_unpack (NoDup headers)). vm_compute. exact I. Qed.

Lemma get_movie_data_keys env soup d :
  get_movie_data env soup = Returns d →
  (∀ key, is_Some (d !! key) ↔ key ∈ headers) ∧ size d = 17%nat.
Proof.
  unfold get_movie_data. intros H. do 18 open_bind H. injection H as <-.
  apply dict_of_zip_keys; [done|apply headers_NoDup].
Qed.

(** X15. The keys of a record.  Whatever the page holds, a record that
    [get_movie_data] returns has the seventeen keys of the header list
    and no other: a field that could not be read is there with its
    default, and there is no [url] key yet. *)
Theorem record_has_the_seventeen_keys (env : Env) (soup : node)
    (d : gmap string pyval) :
  get_movie_data env soup = Returns d →
  (∀ key, is_Some (d !! key) ↔ key ∈ headers) ∧
  size d = 17%nat ∧
  d !! "url" = None.
Proof.
  intros Hd. destruct (get_movie_data_keys env soup d Hd) as [Hkeys Hsize].
  split; [done|]. split; [done|].
  apply eq_None_not_Some. rewrite Hkeys.
  apply (bool_decide_eq_false_1 ("url" ∈ headers)). vm_compute. reflexivity.
Qed.

Lemma record_has_the_seventeen_keys_witness :
  returned (get_movie_data detail_site detail_page) = true ∧
  size <$> get_movie_data detail_site detail_page = Returns 17%nat.
Proof.
  assert (returned (get_movie_data detail_site detail_page) = true) as Hret
    by (vm_compute; reflexivity).
  split; [done|].
  destruct (get_movie_data detail_site detail_page) as [d|e] eqn:Hd;
    [|simpl in Hret; discriminate Hret].
  destruct (record_has_the_seventeen_keys detail_site detail_page d Hd)
    as (_ & Hsize & _).
  simpl. by rewrite Hsize.
Defined.

Lemma split_pieces_clean c s :
  Forall (λ piece, has_char c piece = false) (split c s).
Proof.
  unfold has_char. induction s as [|a s IH]; simpl.
  - by constructor.
  - destruct (Ascii.eqb a c) eqn:Ha; [by constructor|].
    rewrite Ascii.eqb_sym in Ha.
    destruct (split c s) as [|piece pieces].
    + constructor; [|done]. simpl. by rewrite Ha.
    + apply Forall_cons in IH as [Hpiece Hpieces].
      constructor; [|done]. simpl. by rewrite Ha.
Qed.

(** X16. The reference of a record.  When the guarded block returns a
    record for a link, the page was fetched and its seventeen fields
    assembled, and the block added one key, [url]: it holds the piece of
    the link between its first [=] and its second one (or the end), so
    not a URL, and never a text with an [=]; the seventeen fields are as
    assembled. *)
Theorem record_reference_is_second_piece (env : Env) (movie : string)
    (w : world) (d : gmap string pyval) :
  (process_movie env movie w).1 = Returns d →
  ∃ soup data reference,
    (get_movie_page env (detail_url_prefix +:+ movie) w).1 = Returns soup ∧
    get_movie_data env soup = Returns data ∧
    split "=" movie !! 1%nat = Some reference ∧
    has_char "=" reference = false ∧
    d !! "url" = Some (PyStr reference) ∧
    (∀ key, key ≠ "url" → d !! key = data !! key) ∧
    size d = 18%nat.
Proof.
  rewrite process_movie_result. intros H.
  open_bind H. open_bind H. open_bind H. injection H as <-.
  rename x into soup, x0 into data, x1 into reference.
  exists soup, data, reference.
  unfold py_index in *.
  destruct (split "=" movie !! 1%nat) as [piece|] eqn:Hpiece; [|discriminate].
  match goal with H : Returns piece = Returns reference |- _ =>
    injection H as -> end.
  destruct (get_movie_data_keys env soup data ltac:(done)) as [Hkeys Hsize].
  assert (data !! "url" = None) as Hfresh.
  { apply eq_None_not_Some. rewrite Hkeys.
    apply (bool_decide_eq_false_1 ("url" ∈ headers)). vm_compute. reflexivity. }
  repeat split; try done.
  - pose proof (split_pieces_clean "=" movie) as Hclean.
    by apply (Forall_lookup_1 _ _ _ _ Hclean Hpiece).
  - apply lookup_insert_eq.
  - intros key Hkey. by apply lookup_insert_ne.
  - rewrite map_size_insert_None by done. by rewrite Hsize.
Qed.

(* ===================================================================== *)
(** * The second phase: batches and report *)
(* ===================================================================== *)

Lemma record_reference_is_second_piece_witness :
  returned (process_movie detail_site "/movies/?id=a.htm&yr=2018"
              fresh_world).1 = true ∧
  (λ d : gmap string pyval, d !! "url")
    <$> (process_movie detail_site "/movies/?id=a.htm&yr=2018" fresh_world).1
  = Returns (Some (PyStr "a.htm&yr")).
Proof.
  assert (returned (process_movie detail_site "/movies/?id=a.htm&yr=2018"
                      fresh_world).1 = true) as Hret
    by (vm_compute; reflexivity).
  split; [done|].
  destruct (process_movie detail_site "/movies/?id=a.htm&yr=2018"
              fresh_world).1 as [d|e] eqn:Hd;
    [|simpl in Hret; discriminate Hret].
  destruct (record_reference_is_second_piece detail_site _ _ d Hd)
    as (soup & data & reference & _ & _ & Hsplit & _ & Hurl & _).
  vm_compute in Hsplit. injection Hsplit as <-.
  simpl. by rewrite Hurl.
Defined.





(** X19. White space around a date makes no difference: the date
    converter strips it before the parser sees the text. *)
Theorem to_date_ignores_surrounding_space (env : Env) (s : string) :
  to_date env (PyStr (strip isspace_unicode s)) = to_date env (PyStr s).
Proof. unfold to_date. simpl. by rewrite strip_idem. Qed.

(** X20. The page of the titles that start with a digit is read once:
    [get_num_movies] makes one request, for the address without a page
    number, which is none of the addresses the crawl of a letter asks
    for; it prints nothing, and the links it returns hold the marker.
    It does not go on to a second page, however many links the first
    one has. *)
Theorem get_num_movies_reads_one_page (env : Env) (w : world)
    (urls : list string) :
  (get_num_movies env w).1 = Returns urls →
  Forall (λ url, contains "movies/?id" url = true) urls ∧
  requested (get_num_movies env w).2 =
    requested w ++ [index_url_prefix +:+ "NUM"] ∧
  stdout (get_num_movies env w).2 = stdout w ∧
  ∀ page, index_url "NUM" page ≠ index_url_prefix +:+ "NUM".
Proof.
  unfold get_num_movies, get_movie_page. simpl. intros Hurls.
  split; [|split; [done|split; [done|]]].
  - destruct (http_get env (requested w) _ ≫= BeautifulSoup env)
      as [soup|e]; simpl in Hurls; [|discriminate].
    by apply page_links_marked in Hurls.
  - intros page. unfold index_url, index_url_prefix, index_url_suffix.
    push_append. intros [= Hrest].
Qed.

Lemma get_num_movies_reads_one_page_witness :
  Forall (λ url, contains "movies/?id" url = true) [movie_a] ∧
  requested (get_num_movies endless_site fresh_world).2 =
    requested fresh_world ++ [index_url_prefix +:+ "NUM"].
Proof.
  destruct (get_num_movies_reads_one_page endless_site fresh_world [movie_a])
    as (Hmarked & Hreq & _); [vm_compute; reflexivity|].
  by split.
Defined.
